(** * FpsCheck: the checkers of the first-party-sets submission validator

    A shallow embedding of [src/FpsCheck.py].  Every checker of the class
    [FpsCheck] reads the model built by [load_sets] and appends findings to
    the shared [error_list]; some of them can raise.  Both effects are kept:
    a checker is a computation in the monad [check], which threads the
    [error_list] and either returns a value or raises a Python exception. *)

From Stdlib Require Import Ascii.
From stdpp Require Import base option list strings gmap sorting.

(* stdpp's solvers clear hypotheses that may be gone already. *)
Set Warnings "-clear-no-such-hyp".

(** ** Python strings *)

Module PyStr.

(** The character ['.'] on which domain names are split. *)
Definition dot : ascii := "."%char.
(** The line feed of the ["\n"] escapes in the messages. *)
Definition newline : string := String (ascii_of_nat 10) EmptyString.

(** [site.startswith(prefix)] *)
Fixpoint startswith (site prefix : string) : bool :=
  match prefix, site with
  | EmptyString, _ => true
  | String _ _, EmptyString => false
  | String p prefix', String c site' =>
      if decide (p = c) then startswith site' prefix' else false
  end.

(** [needle in hay] on two [str] values: substring test. *)
Fixpoint contains (hay needle : string) : bool :=
  startswith hay needle ||
  match hay with
  | EmptyString => false
  | String _ hay' => contains hay' needle
  end.

(** The pieces of [s.split(".")]: never an empty list. *)
Fixpoint split_dot (s : string) : list string :=
  match s with
  | EmptyString => [EmptyString]
  | String c s' =>
      if decide (c = dot) then EmptyString :: split_dot s'
      else match split_dot s' with
           | piece :: pieces => String c piece :: pieces
           | [] => [String c EmptyString]
           end
  end.




(** The one-character strings a [str] yields when it is iterated (domain names
    are ASCII: a character is a byte). *)
Fixpoint chars (s : string) : list string :=
  match s with
  | EmptyString => []
  | String c s' => String c EmptyString :: chars s'
  end.

(** [sep.join(pieces)] *)
Fixpoint join (sep : string) (pieces : list string) : string :=
  match pieces with
  | [] => EmptyString
  | [piece] => piece
  | piece :: pieces' => piece +:+ sep +:+ join sep pieces'
  end.


End PyStr.

(** ** Exceptions and the checker monad *)

(** An instance of a subclass of [Exception], which is what [except Exception]
    catches: its class and [str(inst)]. *)
Record exn := Exception { exn_class : string; exn_str : string }.

Inductive result (A : Type) : Type :=
  | Ok (a : A)
  | Raise (e : exn).
Arguments Ok {A} a.
Arguments Raise {A} e.

(** A method of [FpsCheck]: it receives [self.error_list], returns or raises,
    and leaves the (possibly longer) [error_list] behind in both cases. *)
Definition check (A : Type) : Type := list string → result A * list string.

#[global] Instance check_ret : MRet check := λ A a errs, (Ok a, errs).
#[global] Instance check_bind : MBind check := λ A B k m errs,
  match m errs with
  | (Ok a, errs') => k a errs'
  | (Raise e, errs') => (Raise e, errs')
  end.

(** [raise e] *)
Definition raise {A} (e : exn) : check A := λ errs, (Raise e, errs).
(** [self.error_list.append(msg)] *)
Definition append (msg : string) : check unit := λ errs, (Ok tt, errs ++ [msg]).
(** [try: body / except Exception as inst: handler(inst)] *)
Definition try_except {A} (body : check A) (handler : exn → check A) : check A :=
  λ errs,
    match body errs with
    | (Ok a, errs') => (Ok a, errs')
    | (Raise e, errs') => handler e errs'
    end.
(** [if cond: body] without an [else] branch. *)
Definition when (cond : bool) (body : check unit) : check unit :=
  if cond then body else mret tt.
(** [for x in xs: body(x)] *)
Fixpoint for_each {A} (xs : list A) (body : A → check unit) : check unit :=
  match xs with
  | [] => mret tt
  | x :: xs' => body x ≫= λ _, for_each xs' body
  end.
(** A loop whose body updates a local variable of type [S]. *)
Fixpoint for_fold {A S} (xs : list A) (body : A → S → check S) (s : S) : check S :=
  match xs with
  | [] => mret s
  | x :: xs' => body x s ≫= for_fold xs' body
  end.

(** ** Python values *)

(** Truth value of an optional list: [None] and [[]] are false. *)
Definition truthy {A} (l : option (list A)) : bool :=
  match l with
  | Some (_ :: _) => true
  | _ => false
  end.

(** The list a truthy optional list holds. *)
Definition items_of {A} (l : option (list A)) : list A := default [] l.

(** A [dict] with keys in [K]: its items in insertion order.  A well-formed one
    has distinct keys; iterating over the keys and indexing with each is
    iterating over the items. *)
Definition dict_of (K V : Type) : Type := list (K * V).

(** A [dict] whose keys are strings. *)
Definition dict (V : Type) : Type := dict_of string V.

Definition dict_keys {K V} (d : dict_of K V) : list K := d.*1.

(** [d.get(k)], which is [d[k]] when the key is present. *)
Fixpoint dict_get {K V} `{EqDecision K} (k : K) (d : dict_of K V) : option V :=
  match d with
  | [] => None
  | (k', v) :: d' => if decide (k = k') then Some v else dict_get k d'
  end.

(** [k in d.keys()] *)
Definition dict_has {K V} `{EqDecision K} (k : K) (d : dict_of K V) : bool :=
  bool_decide (k ∈ dict_keys d).

(** [d[k] = v]: replaces in place, or adds the item at the end. *)
Fixpoint dict_set {K V} `{EqDecision K} (k : K) (v : V) (d : dict_of K V) : dict_of K V :=
  match d with
  | [] => [(k, v)]
  | (k', v') :: d' =>
      if decide (k = k') then (k, v) :: d' else (k', v') :: dict_set k v d'
  end.

(** ** The data model *)

(** One entry of [fps_sites['sets']], as the checkers read it: each field with
    [.get(..., None)], so each of them may be missing, the primary included. *)
Record raw_set := RawSet {
  raw_primary : option string;
  raw_ccTLDs : option (dict (list string));
  raw_associatedSites : option (list string);
  raw_serviceSites : option (list string);
  raw_rationaleBySite : option (gmap string string)
}.

(** Modelled from the spec: the class [FpsSet], which FpsCheck.py imports from
    the module [FpsSet] and whose source is missing.  It stores the four
    constructor arguments [FpsSet(ccTLDs, primary, associated_sites,
    service_sites)] under the attribute names the checkers read.  The lists are
    the list objects of the submission: the set holds them, it does not copy
    them.  The primary is stored as it is given: of type [P]. *)
Record FpsSet_of (P : Type) := mkFpsSet {
  ccTLDs : option (dict (list string));
  primary : P;
  associated_sites : option (list string);
  service_sites : option (list string)
}.
Arguments mkFpsSet {P} _ _ _ _.
Arguments ccTLDs {P} _.
Arguments primary {P} _.
Arguments associated_sites {P} _.
Arguments service_sites {P} _.

(** A set whose primary is a string: the sets of a dictionary string->FpsSet,
    which is what the docstrings of the checkers ask for. *)
Definition FpsSet : Type := FpsSet_of string.

(** A set as [load_sets] builds it from a record: its primary is what
    [fpset.get('primary', None)] gave, a string or [None]; and the dictionary
    [load_sets] returns, whose keys are these primaries. *)
Definition loaded_set : Type := FpsSet_of (option string).
Definition loaded_sets : Type := dict_of (option string) loaded_set.

(** ** load_sets *)

Definition msg_duplicate_primary (p : string) : string :=
  p +:+ " is already a primary of another site".

(** [None + " is already a primary of another site"] *)
Definition TypeError_None_plus_str : exn :=
  Exception "TypeError" "unsupported operand type(s) for +: 'NoneType' and 'str'".

(** Body of the loop of [load_sets], on the local [check_sets]; the list it
    appends to is the local [load_sets_errors].  The message of a repeated
    primary is built with [primary + "..."], which raises for [None]. *)
Definition load_sets_step (fpset : raw_set) (check_sets : loaded_sets)
    : check loaded_sets :=
  let primary := raw_primary fpset in
  let ccTLDs := raw_ccTLDs fpset in
  let associated_sites := raw_associatedSites fpset in
  let service_sites := raw_serviceSites fpset in
  if dict_has primary check_sets then
    match primary with
    | Some primary => append (msg_duplicate_primary primary);; mret check_sets
    | None => raise TypeError_None_plus_str
    end
  else
    mret (dict_set primary (mkFpsSet ccTLDs primary associated_sites service_sites)
            check_sets).

(** The loop runs on the local list [load_sets_errors], which starts empty and
    is added to [self.error_list] after the loop: when the loop raises,
    [self.error_list] is left as it was. *)
Definition load_sets (sets : list raw_set) : check loaded_sets :=
  λ error_list,
    match for_fold sets load_sets_step [] [] with
    | (Ok check_sets, load_sets_errors) => (Ok check_sets, error_list ++ load_sets_errors)
    | (Raise e, _) => (Raise e, error_list)
    end.

(** ** What the network answers *)

(** The answer of [requests.get]: the status code, the headers (a
    case-insensitive dictionary, keyed here by the lower-case field name) and
    the final URL. *)
Record response := Response {
  status_code : Z;
  headers : gmap string string;
  url : string
}.

(** A parsed [.well-known/first-party-set.json] document: the recognised
    fields it has, each of the type the submission gives it, and the names of
    its other top-level fields.  A response that is not such a document makes
    [open_and_load_json] or the code reading the document raise. *)
Record well_known := WellKnown {
  wk_primary : option string;
  wk_ccTLDs : option (dict (list string));
  wk_associatedSites : option (list string);
  wk_serviceSites : option (list string);
  wk_other_keys : gset string
}.

(** The value of a list-like field: a list of sites, or the alias dictionary. *)
Inductive field_value :=
  | Sites (sites : list string)
  | Aliases (aliases : dict (list string)).

(** [set(value)]: the members of a list, the keys of a dictionary. *)
Definition set_of (value : field_value) : gset string :=
  match value with
  | Sites sites => list_to_set sites
  | Aliases aliases => list_to_set (dict_keys aliases)
  end.

(** [a ^ b] on sets. *)
Definition sym_diff (a b : gset string) : gset string := (a ∖ b) ∪ (b ∖ a).

(** [json_schema.keys()] *)
Definition wk_keys (json_schema : well_known) : gset string :=
  (if wk_ccTLDs json_schema is Some _ then {["ccTLDs"]} else ∅) ∪
  (if wk_primary json_schema is Some _ then {["primary"]} else ∅) ∪
  (if wk_associatedSites json_schema is Some _ then {["associatedSites"]} else ∅) ∪
  (if wk_serviceSites json_schema is Some _ then {["serviceSites"]} else ∅) ∪
  wk_other_keys json_schema.

(** [json_schema[field]] for a field other than ["primary"]. *)
Definition wk_field (json_schema : well_known) (field : string) : option field_value :=
  if decide (field = "ccTLDs") then Aliases <$> wk_ccTLDs json_schema
  else if decide (field = "associatedSites") then Sites <$> wk_associatedSites json_schema
  else if decide (field = "serviceSites") then Sites <$> wk_serviceSites json_schema
  else None.

(** Modelled from the spec: the attribute [relevant_fields_dict] of the missing
    class [FpsSet], indexed by the field names of the submission; it holds the
    corresponding value of the set, [None] for a field the set lacks.  Its
    entry for ["primary"] is never read: the primary is compared through the
    attribute [primary]. *)
Definition relevant_fields_dict (fps : FpsSet) (field : string) : option field_value :=
  if decide (field = "ccTLDs") then Aliases <$> ccTLDs fps
  else if decide (field = "associatedSites") then Sites <$> associated_sites fps
  else if decide (field = "serviceSites") then Sites <$> service_sites fps
  else None.

(** [self.acceptable_fields] *)
Definition acceptable_fields : gset string :=
  list_to_set ["ccTLDs"; "primary"; "associatedSites"; "serviceSites"].

(** The order of [str] values, by character code. *)
Definition str_le (a b : string) : Prop := String.leb a b = true.
#[global] Instance str_le_dec : RelDecision str_le := λ a b, decide (String.leb a b = true).

(** [sorted(xs)] *)
Definition sorted (xs : list string) : list string := merge_sort str_le xs.

Definition TypeError_None : exn :=
  Exception "TypeError" "'NoneType' object is not iterable".

(** A value the network gave, or the exception it raised. *)
Definition lift {A} (r : result A) : check A := λ errs, (r, errs).

(** ** The checkers

    The collaborators of the checkers are the variables of this section:
    the country codes [self.icanns], what the network answers, and how Python
    prints and iterates. *)

Section Checkers.

(** [self.icanns] *)
Variable icanns : gset string.
(** [repr(s)] of a [str], as it is printed inside a list or a set. *)
Variable py_repr : string → string.
(** The order in which a [set] of strings is iterated (and printed). *)
Variable iter_set : gset string → list string.
(** [self.open_and_load_json(url)] *)
Variable open_and_load_json : string → result well_known.
(** [requests.get(url, timeout=10)] *)
Variable requests_get : string → result response.

(** [str(xs)] of a list and of a non-empty set of strings. *)
Definition str_list (xs : list string) : string :=
  "[" +:+ PyStr.join ", " (py_repr <$> xs) +:+ "]".
Definition str_set (xs : gset string) : string :=
  "{" +:+ PyStr.join ", " (py_repr <$> iter_set xs) +:+ "}".

Definition KeyError (key : string) : exn := Exception "KeyError" (py_repr key).

(** [repr] of what [fpset.get("primary")] gives, and the [KeyError] of a
    dictionary indexed with it. *)
Definition repr_primary (primary : option string) : string :=
  match primary with
  | Some primary => py_repr primary
  | None => "None"
  end.
Definition KeyError_primary (primary : option string) : exn :=
  Exception "KeyError" (repr_primary primary).

(** *** has_all_rationales *)

Definition msg_no_rationale (site : string) : string :=
  "There is no provided rationale for " +:+ site.
Definition msg_rationale_required : string :=
  "A rationaleBySite field is required for this set, but" +:+ " none is provided. ".

(** The local [sites] after the first [if]/[else]. *)
Definition rationale_sites {P} (fps : FpsSet_of P) : option (list string) :=
  let sites := associated_sites fps in
  let service_sites := service_sites fps in
  if truthy sites then
    if truthy service_sites then Some (items_of sites ++ items_of service_sites)
    else sites
  else service_sites.

(** What follows once [sites] and [rationales] are known. *)
Definition check_rationales (sites : option (list string))
    (rationales : option (gmap string string)) : check unit :=
  match rationales with
  | Some rationales =>
      when (truthy sites)
        (for_each (items_of sites) (λ site,
           when (bool_decide (site ∉ dom rationales))
             (append (msg_no_rationale site))))
  | None => mret tt
  end;;
  when (bool_decide (sites ≠ None) && bool_decide (rationales = None))
    (append msg_rationale_required).

(** The body of the loop over [self.fps_sites['sets']].  The dictionary is
    indexed with [fpset.get("primary")], a string or [None]: it is the
    dictionary that [load_sets] built. *)
Definition rationale_record (check_sets : loaded_sets) (fpset : raw_set) : check unit :=
  match dict_get (raw_primary fpset) check_sets with
  | None => raise (KeyError_primary (raw_primary fpset))
  | Some fps => check_rationales (rationale_sites fps) (raw_rationaleBySite fpset)
  end.

Definition has_all_rationales (sets : list raw_set) (check_sets : loaded_sets)
    : check unit :=
  for_each sets (rationale_record check_sets).

(** *** check_exclusivity *)

Definition msg_primary_registered (primary : string) : string :=
  "This primary is already registered in another first party" +:+ " set: " +:+ primary.
Definition msg_associated_registered (overlap : gset string) : string :=
  "These associated sites are already registered in " +:+
  "another first party set: " +:+ str_set overlap.
Definition msg_service_registered (overlap : gset string) : string :=
  "These service sites are already registered in another" +:+
  " first party set: " +:+ str_set overlap.
Definition msg_ccTLD_registered (overlap : gset string) : string :=
  "These ccTLD sites are already registered in " +:+
  "another first party set: " +:+ str_set overlap.

(** [site_list.update(primary)]: [update] iterates its argument, and the
    argument is a [str], so the characters of [primary] are added. *)
Definition update_primary (site_list : gset string) (primary : string) : gset string :=
  site_list ∪ list_to_set (PyStr.chars primary).

(** The body of the loop over [fps.ccTLDs.keys()]. *)
Definition exclusivity_alias (alias : string * list string) (site_list : gset string)
    : check (gset string) :=
  let '(aliased_site, alias_sites) := alias in
  let alias_overlap := list_to_set alias_sites ∩ site_list in
  if bool_decide (alias_overlap ≠ ∅) then
    append (msg_ccTLD_registered alias_overlap);; mret site_list
  else mret (site_list ∪ list_to_set alias_sites).

(** The body of the loop over [check_sets.keys()], on the local [site_list]. *)
Definition exclusivity_set (entry : string * FpsSet) (site_list : gset string)
    : check (gset string) :=
  let '(primary, fps) := entry in
  (* Check the primary *)
  site_list ←
    (if bool_decide (primary ∈ site_list) then
       append (msg_primary_registered primary);; mret site_list
     else mret (update_primary site_list primary));
  (* Check the associated sites *)
  site_list ←
    (if truthy (associated_sites fps) then
       let associated_overlap :=
         list_to_set (items_of (associated_sites fps)) ∩ site_list in
       if bool_decide (associated_overlap ≠ ∅) then
         append (msg_associated_registered associated_overlap);; mret site_list
       else mret (site_list ∪ list_to_set (items_of (associated_sites fps)))
     else mret site_list);
  (* Check the service sites *)
  site_list ←
    (if truthy (service_sites fps) then
       let service_overlap :=
         list_to_set (items_of (service_sites fps)) ∩ site_list in
       if bool_decide (service_overlap ≠ ∅) then
         append (msg_service_registered service_overlap);; mret site_list
       else mret (site_list ∪ list_to_set (items_of (service_sites fps)))
     else mret site_list);
  (* Check the ccTLDs *)
  if truthy (ccTLDs fps) then
    for_fold (items_of (ccTLDs fps)) exclusivity_alias site_list
  else mret site_list.

Definition check_exclusivity (check_sets : dict FpsSet) : check unit :=
  for_fold check_sets exclusivity_set ∅;; mret tt.

(** *** find_non_https_urls *)




(** *** check_list_sites and find_invalid_well_known *)

Definition well_known_url (site : string) : string :=
  site +:+ "/.well-known/first-party-set.json".

Definition msg_no_primary_key (site : string) : string :=
  "The listed associated site site did not have primary" +:+
  " as a key in its .well-known/first-party-set.json file: " +:+ site.
Definition msg_other_primary (primary site : string) : string :=
  "The listed associated site " +:+ "did not have " +:+ primary +:+
  " listed as its primary: " +:+ site.
Definition msg_access_error (url : string) (inst : exn) : string :=
  "Experienced an error when trying to access " +:+ url +:+ "; " +:+
  "error was: " +:+ exn_str inst.
Definition msg_field_mismatch (field : string) (members : list string) : string :=
  "The following member(s) of " +:+ field +:+
  " were not present in both the changelist " +:+
  "and .well-known/first-party-set.json file: " +:+ str_list (sorted members).

(** The body of the loop of [check_list_sites]. *)
Definition check_site (primary site : string) : check unit :=
  let url := well_known_url site in
  try_except
    (json_schema ← lift (open_and_load_json url);
     match wk_primary json_schema with
     | None => append (msg_no_primary_key site)
     | Some listed =>
         when (bool_decide (listed ≠ primary)) (append (msg_other_primary primary site))
     end)
    (λ inst, append (msg_access_error url inst)).

Definition check_list_sites (primary : string) (site_list : list string) : check unit :=
  for_each site_list (check_site primary).

(** The body of the loop over [schema_fields]. *)
Definition compare_field (json_schema : well_known) (curr_fps_set : FpsSet)
    (field : string) : check unit :=
  if decide (field = "primary") then
    match wk_primary json_schema with
    | None => raise (KeyError "primary")
    | Some listed =>
        let field_sym_difference :=
          if decide (listed ≠ primary curr_fps_set)
          then [listed; primary curr_fps_set] else [] in
        when (bool_decide (field_sym_difference ≠ []))
          (append (msg_field_mismatch field field_sym_difference))
    end
  else
    match wk_field json_schema field with
    | None => raise (KeyError field)
    | Some fetched =>
        match relevant_fields_dict curr_fps_set field with
        | None => raise TypeError_None
        | Some submitted =>
            let field_sym_difference := sym_diff (set_of fetched) (set_of submitted) in
            field_sym_difference ←
              match fetched, submitted with
              | Aliases fetched_aliases, Aliases submitted_aliases =>
                  for_fold fetched_aliases (λ '(aliased_site, fetched_sites) diff,
                    match dict_get aliased_site submitted_aliases with
                    | None => raise (KeyError aliased_site)
                    | Some submitted_sites =>
                        mret (diff ∪ sym_diff (list_to_set fetched_sites)
                                              (list_to_set submitted_sites))
                    end) field_sym_difference
              | _, _ => mret field_sym_difference
              end;
            when (bool_decide (field_sym_difference ≠ ∅))
              (append (msg_field_mismatch field (elements field_sym_difference)))
        end
    end.

(** The [try] block of [find_invalid_well_known] with its handler. *)
Definition check_primary_document (primary : string) (curr_fps_set : FpsSet)
    : check unit :=
  let url := well_known_url primary in
  try_except
    (json_schema ← lift (open_and_load_json url);
     let schema_fields := acceptable_fields ∩ wk_keys json_schema in
     for_each (iter_set schema_fields) (compare_field json_schema curr_fps_set))
    (λ inst, append (msg_access_error url inst)).

(** The loop over the alias keys, on the local [ccTLD_sites]: the call of
    [check_list_sites] is inside the loop, on the list gathered so far. *)
Definition check_ccTLD_documents (primary : string) (alias : string * list string)
    (ccTLD_sites : list string) : check (list string) :=
  let '(aliased_site, alias_sites) := alias in
  let ccTLD_sites := ccTLD_sites ++ alias_sites in
  check_list_sites primary ccTLD_sites;; mret ccTLD_sites.

(** What follows the [try] statement: the member sites. *)
Definition check_member_documents (primary : string) (fps : FpsSet) : check unit :=
  (* Now we check the associated sites *)
  when (truthy (associated_sites fps))
    (check_list_sites primary (items_of (associated_sites fps)));;
  (* Now we check the service sites *)
  when (truthy (service_sites fps))
    (check_list_sites primary (items_of (service_sites fps)));;
  (* Now we check the ccTLDs *)
  when (truthy (ccTLDs fps))
    (for_fold (items_of (ccTLDs fps)) (check_ccTLD_documents primary) [];; mret tt).

Definition find_invalid_well_known (check_sets : dict FpsSet) : check unit :=
  for_each check_sets (λ '(primary, fps),
    (* First we check the primary sites *)
    check_primary_document primary fps;;
    (* Check the member sites *)
    check_member_documents primary fps).

(** *** find_invalid_alias_eSLDs *)









(** *** find_robots_txt, find_ads_txt and check_for_service_redirect *)

Definition exception_timeout : string := "Read timed out. (read timeout=10)".
(** The local [exception_retries] of each of the three checkers. *)
Definition exception_retries_robots : string :=
  "Max retries exceeded with url: /robots.txt".
Definition exception_retries_ads : string :=
  "Max retries exceeded with url: /ads.txt".
Definition exception_retries_root : string :=
  "Max retries exceeded with url: /".

(** The two nested [if ... not in str(inst)] of the three handlers. *)
Definition unexpected (exception_retries : string) (inst : exn) : bool :=
  negb (PyStr.contains (exn_str inst) exception_retries) &&
  negb (PyStr.contains (exn_str inst) exception_timeout).

Definition msg_no_robots_tag (service_site : string) : string :=
  "The service site " +:+ service_site +:+ " has a robots.txt file, " +:+
  "but does not have " +:+ "X-Robots-Tag in its header".
Definition msg_no_noindex (service_site : string) : string :=
  "The service site " +:+ service_site +:+
  " has a robots.txt file, but does not have" +:+ " a no-index tag in its header".
Definition msg_unexpected_robots (service_site : string) (inst : exn) : string :=
  "Unexpected error for service site: " +:+ service_site +:+
  "; Received error:" +:+ exn_str inst.

(** The body of the loop over the service sites in [find_robots_txt]. *)
Definition robots_site (service_site : string) : check unit :=
  let exception_retries := exception_retries_robots in
  let robot_site := service_site +:+ "/robots.txt" in
  try_except
    (r ← lift (requests_get robot_site);
     when (bool_decide (status_code r = 200%Z))
       (r_service ← lift (requests_get service_site);
        match headers r_service !! "x-robots-tag" with
        | None => append (msg_no_robots_tag service_site)
        | Some tag =>
            when (bool_decide (tag ≠ "noindex")) (append (msg_no_noindex service_site))
        end))
    (λ inst,
       when (unexpected exception_retries inst)
         (append (msg_unexpected_robots service_site inst))).

Definition find_robots_txt (check_sets : dict FpsSet) : check unit :=
  for_each check_sets (λ '(primary, fps),
    if negb (truthy (service_sites fps)) then mret tt
    else for_each (items_of (service_sites fps)) robots_site).

Definition msg_ads_txt (service_site : string) : string :=
  "The service site " +:+ service_site +:+ " has an ads.txt file, this violates " +:+
  "the policies for service sites".
Definition msg_unexpected_ads (service_site : string) (inst : exn) : string :=
  "Unexpected error for service site: " +:+ service_site +:+
  PyStr.newline +:+ "Received error:" +:+ exn_str inst.

(** The body of the loop over the service sites in [find_ads_txt]. *)
Definition ads_site (service_site : string) : check unit :=
  let exception_retries := exception_retries_ads in
  let ads_site := service_site +:+ "/ads.txt" in
  try_except
    (r ← lift (requests_get ads_site);
     when (bool_decide (status_code r = 200%Z)) (append (msg_ads_txt service_site)))
    (λ inst,
       when (unexpected exception_retries inst)
         (append (msg_unexpected_ads service_site inst))).

Definition find_ads_txt (check_sets : dict FpsSet) : check unit :=
  for_each check_sets (λ '(primary, fps),
    if negb (truthy (service_sites fps)) then mret tt
    else for_each (items_of (service_sites fps)) ads_site).

Definition msg_endpoint (service_site : string) : string :=
  "The service site must not be an endpoint: " +:+ service_site.
Definition msg_unexpected_redirect (service_site : string) (inst : exn) : string :=
  "Unexpected error for " +:+ "service site: " +:+ service_site +:+
  PyStr.newline +:+ "Received error: " +:+ exn_str inst.

(** The body of the loop over the service sites in [check_for_service_redirect]. *)
Definition redirect_site (service_site : string) : check unit :=
  let exception_retries := exception_retries_root in
  try_except
    (r ← lift (requests_get service_site);
     when (bool_decide (status_code r < 400)%Z || bool_decide (status_code r >= 600)%Z)
       (when (bool_decide (url r = service_site) ||
              bool_decide (url r = service_site +:+ "/"))
          (append (msg_endpoint service_site))))
    (λ inst,
       when (unexpected exception_retries inst)
         (append (msg_unexpected_redirect service_site inst))).

Definition check_for_service_redirect (check_sets : dict FpsSet) : check unit :=
  for_each check_sets (λ '(primary, fps),
    if negb (truthy (service_sites fps)) then mret tt
    else for_each (items_of (service_sites fps)) redirect_site).

End Checkers.

(** *** is_eTLD_Plus1 and find_invalid_eTLD_Plus1 *)

Section PublicSuffix.

(** [self.etlds.get_public_suffix(site, strict=True)] of the public suffix list. *)
Variable get_public_suffix : string → option string.





End PublicSuffix.

(** ** The properties, in the words of the specification *)

Module Spec.

(** The set entity a record is loaded as. *)
Definition to_FpsSet (fpset : raw_set) : loaded_set :=
  mkFpsSet (raw_ccTLDs fpset) (raw_primary fpset)
           (raw_associatedSites fpset) (raw_serviceSites fpset).
Definition to_entry (fpset : raw_set) : option string * loaded_set :=
  (raw_primary fpset, to_FpsSet fpset).

(** A record repeats a primary when one of the [earlier] records has it. *)
Definition repeats (earlier : list raw_set) (fpset : raw_set) : bool :=
  bool_decide (raw_primary fpset ∈ raw_primary <$> earlier).

(** The records that repeat the primary of an earlier record, and the others. *)
Fixpoint repeated_claims (earlier sets : list raw_set) : list raw_set :=
  match sets with
  | [] => []
  | fpset :: sets' =>
      (if repeats earlier fpset then [fpset] else []) ++
      repeated_claims (earlier ++ [fpset]) sets'
  end.
Fixpoint first_claims (earlier sets : list raw_set) : list raw_set :=
  match sets with
  | [] => []
  | fpset :: sets' =>
      (if repeats earlier fpset then [] else [fpset]) ++
      first_claims (earlier ++ [fpset]) sets'
  end.

(** A record without a primary, and a submission in which such a record
    follows another such record. *)
Definition lacks_primary (fpset : raw_set) : bool :=
  bool_decide (raw_primary fpset = None).
Definition missing_primary_repeated (sets : list raw_set) : bool :=
  existsb lacks_primary (repeated_claims [] sets).

(** The duplicate-primary finding of a record that repeats a primary. *)
Definition duplicate_finding (fpset : raw_set) : list string :=
  match raw_primary fpset with
  | Some primary => [msg_duplicate_primary primary]
  | None => []
  end.






(** The associated sites of a set followed by its service sites. *)
Definition listed_sites {P} (fps : FpsSet_of P) : list string :=
  items_of (associated_sites fps) ++ items_of (service_sites fps).

(** A fetch failure matches the connection-exhaustion signature of the checker
    or the read-timeout signature. *)
Definition expected_failure (exception_retries : string) (inst : exn) : bool :=
  PyStr.contains (exn_str inst) exception_retries ||
  PyStr.contains (exn_str inst) exception_timeout.












(** A failure with the connection-exhaustion signature, whatever the path
    that the text names, or with the read-timeout signature. *)
Definition exhausted_or_timed_out (inst : exn) : bool :=
  PyStr.contains (exn_str inst) "Max retries exceeded with url: /" ||
  PyStr.contains (exn_str inst) exception_timeout.

End Spec.

(** ** What a checker does to the error list *)

(** A checker that cannot raise and only appends: [emits m out] says which
    findings it appends, whatever the list it starts from. *)
Definition emits (m : check unit) (out : list string) : Prop :=
  ∀ errs, m errs = (Ok tt, errs ++ out).

(** A computation that only appends findings, all of them in [P], whether it
    returns or raises. *)
Definition appends {A} (P : string → Prop) (m : check A) : Prop :=
  ∀ errs, ∃ r out, m errs = (r, errs ++ out) ∧ Forall P out.

(** A computation that moreover always returns. *)
Definition returns {A} (P : string → Prop) (m : check A) : Prop :=
  ∀ errs, ∃ a out, m errs = (Ok a, errs ++ out) ∧ Forall P out.

(** ** Concrete submissions and answers of the network *)

Module Examples.

(** A set with only a primary, and a later set that lists that primary among
    its associated sites. *)
Definition set_a : FpsSet := mkFpsSet None "https://a.example" None None.
Definition set_b : FpsSet :=
  mkFpsSet None "https://b.example" (Some ["https://a.example"]) None.
Definition sets_a_b : dict FpsSet :=
  [("https://a.example", set_a); ("https://b.example", set_b)].

(** A record that lists one domain both as associated and as service site, with
    a [rationaleBySite] that has no entry for it. *)
Definition record_twice : raw_set :=
  RawSet (Some "https://p.example") None
         (Some ["https://a.example"]) (Some ["https://a.example"]) (Some ∅).

(** A record without a primary. *)
Definition record_no_primary : raw_set := RawSet None None None None None.

(** A record with a service site and no [rationaleBySite]. *)
Definition record_service : raw_set :=
  RawSet (Some "https://p.example") None None (Some ["https://svc.example"]) None.

(** A set with one service site. *)
Definition set_service : FpsSet :=
  mkFpsSet None "https://p.example" None (Some ["https://svc.example"]).
Definition sets_service : dict FpsSet := [("https://p.example", set_service)].

(** A network on which every request is answered with 204 No Content. *)
Definition no_content (url : string) : result response := Ok (Response 204 ∅ url).

(** A network on which every request times out. *)
Definition read_timeout : exn :=
  Exception "ReadTimeout"
    "HTTPSConnectionPool(host='svc.example', port=443): Read timed out. (read timeout=10)".
Definition timing_out (url : string) : result response := Raise read_timeout.

(** A network that serves [robots.txt] and then fails on the root page. *)
Definition ssl_error : exn :=
  Exception "SSLError" "certificate verify failed".
Definition robots_then_failure (url : string) : result response :=
  if decide (url = "https://svc.example/robots.txt") then Ok (Response 200 ∅ url)
  else Raise ssl_error.

(** A network that serves [robots.txt] and whose root page cannot be reached:
    the connection attempts are exhausted. *)
Definition root_exhausted : exn :=
  Exception "ConnectionError"
    "HTTPSConnectionPool(host='svc.example', port=443): Max retries exceeded with url: / (Caused by NewConnectionError)".
Definition robots_then_exhausted (url : string) : result response :=
  if decide (url = "https://svc.example/robots.txt") then Ok (Response 200 ∅ url)
  else Raise root_exhausted.


(** A set whose alias key has a two-label suffix, with a [.com] sibling. *)
Definition set_co_uk : FpsSet :=
  mkFpsSet (Some [("https://example.co.uk", ["https://example.com"])])
           "https://example.co.uk" None None.
Definition sets_co_uk : dict FpsSet := [("https://example.co.uk", set_co_uk)].


(** The document of the primary ["https://a.example"]: it names its primary and
    has no [associatedSites]; the submitted set lists an associated site. *)
Definition document_a : well_known :=
  WellKnown (Some "https://a.example") None None None ∅.
Definition set_a_associated : FpsSet :=
  mkFpsSet None "https://a.example" (Some ["https://b.example"]) None.
Definition connection_refused : exn :=
  Exception "URLError" "<urlopen error [Errno 111] Connection refused>".
(** A network on which only that document can be fetched. *)
Definition only_document_a (url : string) : result well_known :=
  if decide (url = "https://a.example/.well-known/first-party-set.json")
  then Ok document_a else Raise connection_refused.

End Examples.
(** ** Further behaviour of the checkers: vocabulary *)

Module Behaviour.

(** The first record of the submission that claims the primary [p]. *)
Definition first_with_primary (sets : list raw_set) (p : option string) : option raw_set :=
  head (filter (λ fpset, raw_primary fpset = p) sets).

(** The findings of the rationale checker for the local [sites] and the record's
    [rationaleBySite]. *)
Definition rationale_findings_of (sites : option (list string))
    (rationales : option (gmap string string)) : list string :=
  match rationales with
  | Some rationales =>
      msg_no_rationale <$> filter (λ site, site ∉ dom rationales) (items_of sites)
  | None => if bool_decide (sites ≠ None) then [msg_rationale_required] else []
  end.

(** The findings for one record, on the model loaded from [sets]. *)
Definition rationale_findings_of_record (sets : list raw_set) (fpset : raw_set)
    : list string :=
  match first_with_primary sets (raw_primary fpset) with
  | Some first =>
      rationale_findings_of (rationale_sites (Spec.to_FpsSet first))
                            (raw_rationaleBySite fpset)
  | None => []
  end.

(** A computation that returns [a] and appends [out], whatever the list it
    starts from. *)
Definition yields {A} (m : check A) (a : A) (out : list string) : Prop :=
  ∀ errs, m errs = (Ok a, errs ++ out).

(** The domains a set lists in its list roles: associated sites, service sites
    and the siblings under its alias keys. *)
Definition list_role_domains (fps : FpsSet) : list string :=
  items_of (associated_sites fps) ++ items_of (service_sites fps) ++
  (items_of (ccTLDs fps) ≫= snd).

(** The domains an entry of the model claims, alias keys apart: its primary and
    the domains of its list roles. *)
Definition claimed_domains (entry : string * FpsSet) : list string :=
  entry.1 :: list_role_domains entry.2.

(** An entry of the model claims a domain: as its primary or in a list role. *)
Definition claims (entry : string * FpsSet) (domain : string) : Prop :=
  domain = entry.1 ∨ domain ∈ list_role_domains entry.2.


Section Exclusivity.

Variable py_repr : string → string.
Variable iter_set : gset string → list string.




End Exclusivity.



(** The service sites of a model, set after set. *)
Definition service_sites_of (check_sets : dict FpsSet) : list string :=
  check_sets ≫= λ entry, items_of (service_sites entry.2).

(** What a handler of the policy checkers appends for an exception. *)
Definition failure_finding (exception_retries : string) (msg : exn → string) (inst : exn)
    : list string :=
  if Spec.expected_failure exception_retries inst then [] else [msg inst].

Section Network.

Variable requests_get : string → result response.

(** The finding of [find_robots_txt] for one service site. *)
Definition robots_finding (service_site : string) : list string :=
  match requests_get (service_site +:+ "/robots.txt") with
  | Raise inst =>
      failure_finding exception_retries_robots (msg_unexpected_robots service_site) inst
  | Ok r =>
      if bool_decide (status_code r = 200%Z) then
        match requests_get service_site with
        | Raise inst =>
            failure_finding exception_retries_robots (msg_unexpected_robots service_site) inst
        | Ok r_service =>
            match headers r_service !! "x-robots-tag" with
            | None => [msg_no_robots_tag service_site]
            | Some tag =>
                if bool_decide (tag = "noindex") then [] else [msg_no_noindex service_site]
            end
        end
      else []
  end.

(** The finding of [find_ads_txt] for one service site. *)
Definition ads_finding (service_site : string) : list string :=
  match requests_get (service_site +:+ "/ads.txt") with
  | Raise inst =>
      failure_finding exception_retries_ads (msg_unexpected_ads service_site) inst
  | Ok r => if bool_decide (status_code r = 200%Z) then [msg_ads_txt service_site] else []
  end.

(** The finding of [check_for_service_redirect] for one service site: the
    answer is no client or server error, and the final URL is the site. *)
Definition redirect_finding (service_site : string) : list string :=
  match requests_get service_site with
  | Raise inst =>
      failure_finding exception_retries_root (msg_unexpected_redirect service_site) inst
  | Ok r =>
      if bool_decide (¬ (400 ≤ status_code r < 600)%Z ∧
                      (url r = service_site ∨ url r = service_site +:+ "/"))
      then [msg_endpoint service_site] else []
  end.

End Network.

(** A computation that ends in [r] and appends [out], whatever the list it
    starts from. *)
Definition outcome {A} (m : check A) (r : result A) (out : list string) : Prop :=
  ∀ errs, m errs = (r, errs ++ out).

Section Documents.

Variable open_and_load_json : string → result well_known.

(** The finding of [check_list_sites] for one site of the list. *)
Definition site_finding (primary site : string) : list string :=
  match open_and_load_json (well_known_url site) with
  | Raise inst => [msg_access_error (well_known_url site) inst]
  | Ok json_schema =>
      match wk_primary json_schema with
      | None => [msg_no_primary_key site]
      | Some listed =>
          if bool_decide (listed = primary) then [] else [msg_other_primary primary site]
      end
  end.

End Documents.

(** The siblings listed under the first [i] alias keys. *)
Definition siblings_up_to (aliases : dict (list string)) (i : nat) : list string :=
  take i aliases ≫= snd.

(** Two lists with the same members, whatever their order and repetitions. *)
Definition same_sites (fetched submitted : list string) : Prop :=
  ∀ site, site ∈ fetched ↔ site ∈ submitted.

(** Two alias dictionaries with the same keys and, under each key of the
    fetched one, the same siblings. *)
Definition same_aliases (fetched submitted : dict (list string)) : Prop :=
  same_sites (dict_keys fetched) (dict_keys submitted) ∧
  ∀ aliased_site fetched_sites, (aliased_site, fetched_sites) ∈ fetched →
    ∃ submitted_sites, dict_get aliased_site submitted = Some submitted_sites ∧
                       same_sites fetched_sites submitted_sites.

(** A fetched document agrees with the submitted set: every recognised field
    the document has is a field of the set, with the same members. *)
Definition agrees (json_schema : well_known) (fps : FpsSet) : Prop :=
  (∀ listed, wk_primary json_schema = Some listed → listed = primary fps) ∧
  (∀ fetched, wk_ccTLDs json_schema = Some fetched →
     ∃ submitted, ccTLDs fps = Some submitted ∧ same_aliases fetched submitted) ∧
  (∀ fetched, wk_associatedSites json_schema = Some fetched →
     ∃ submitted, associated_sites fps = Some submitted ∧ same_sites fetched submitted) ∧
  (∀ fetched, wk_serviceSites json_schema = Some fetched →
     ∃ submitted, service_sites fps = Some submitted ∧ same_sites fetched submitted).

(** The same for the two values of one list-like field. *)
Definition same_members (fetched submitted : field_value) : Prop :=
  match fetched, submitted with
  | Aliases fetched, Aliases submitted => same_aliases fetched submitted
  | _, _ => set_of fetched = set_of submitted
  end.

(** One field of the document agrees with the set. *)
Definition field_agrees (json_schema : well_known) (fps : FpsSet) (field : string) : Prop :=
  if decide (field = "primary") then wk_primary json_schema = Some (primary fps)
  else ∃ fetched submitted,
         wk_field json_schema field = Some fetched ∧
         relevant_fields_dict fps field = Some submitted ∧
         same_members fetched submitted.



End Behaviour.

Module MoreExamples.

(** Two records with the same primary: the first lists a service site and
    justifies it, the second lists nothing and has no [rationaleBySite]. *)
Definition record_first : raw_set :=
  RawSet (Some "https://p.example") None None (Some ["https://svc.example"])
         (Some {["https://svc.example" := "serves the primary"]}).
Definition record_repeat : raw_set :=
  RawSet (Some "https://p.example") None None None None.
Definition record_other : raw_set :=
  RawSet (Some "https://q.example") None (Some ["https://r.example"]) None
         (Some {["https://r.example" := "same owner"]}).

(** A set whose [serviceSites] is the empty list. *)
Definition record_empty_service : raw_set :=
  RawSet (Some "https://p.example") None None (Some []) None.

(** A set that lists [https://x.example] as associated site, and a later set with
    that domain as its primary. *)
Definition set_lists_x : FpsSet :=
  mkFpsSet None "https://a.example" (Some ["https://x.example"]) None.

(** Two sets whose domains are all different. *)
Definition sets_disjoint : dict FpsSet :=
  [("https://a.example", set_lists_x); ("https://p.example", Examples.set_service)].


End MoreExamples.


(** ** Reasoning about checkers *)

Section Monad.

Context {A : Type}.

Lemma bind_ok {B} (m : check A) (k : A → check B) a errs errs' :
  m errs = (Ok a, errs') → (m ≫= k) errs = k a errs'.
Proof. intros H. unfold mbind, check_bind. by rewrite H. Qed.

Lemma bind_raise {B} (m : check A) (k : A → check B) e errs errs' :
  m errs = (Raise e, errs') → (m ≫= k) errs = (Raise e, errs').
Proof. intros H. unfold mbind, check_bind. by rewrite H. Qed.

End Monad.

Lemma emits_ret : emits (mret tt) [].
Proof. intros errs. by rewrite app_nil_r. Qed.

Lemma emits_append msg : emits (append msg) [msg].
Proof. by intros errs. Qed.

Lemma emits_bind (m : check unit) (k : unit → check unit) out1 out2 :
  emits m out1 → emits (k tt) out2 → emits (m ≫= k) (out1 ++ out2).
Proof.
  intros H1 H2 errs. rewrite (bind_ok _ _ tt errs (errs ++ out1)); [|apply H1].
  by rewrite H2, app_assoc.
Qed.

Lemma emits_when (cond : bool) m out :
  emits m out → emits (when cond m) (if cond then out else []).
Proof. destruct cond; [done|]. intros _. apply emits_ret. Qed.

Lemma emits_for_each {A} (xs : list A) (body : A → check unit) (out : A → list string) :
  (∀ x, x ∈ xs → emits (body x) (out x)) → emits (for_each xs body) (xs ≫= out).
Proof.
  induction xs as [|x xs IH]; intros H; [apply emits_ret|].
  cbn [for_each]. apply emits_bind.
  - apply H. by left.
  - apply IH. intros y Hy. apply H. by right.
Qed.

Lemma emits_eq (m : check unit) out out' : emits m out → out = out' → emits m out'.
Proof. by intros H <-. Qed.

Lemma when_truthy {A} (l : option (list A)) (body : A → check unit) :
  when (truthy l) (for_each (items_of l) body) = for_each (items_of l) body.
Proof. by destruct l as [[|]|]. Qed.

Lemma list_bind_fmap_comp {A B C} (f : A → B) (g : B → list C) (l : list A) :
  (f <$> l) ≫= g = l ≫= (g ∘ f).
Proof. induction l as [|x l IH]; [done|]. cbn. by rewrite IH. Qed.

Lemma list_bind_singleton {A B} (f : A → list B) (x : A) : [x] ≫= f = f x.
Proof. cbn. by rewrite app_nil_r. Qed.

Lemma list_bind_bind {A B C} (f : A → list B) (g : B → list C) (l : list A) :
  (l ≫= f) ≫= g = l ≫= (λ x, f x ≫= g).
Proof. induction l as [|x l IH]; [done|]. cbn. by rewrite bind_app, IH. Qed.

Section Outcomes.

Context {A : Type}.

Lemma appends_weaken (P Q : string → Prop) (m : check A) :
  (∀ msg, P msg → Q msg) → appends P m → appends Q m.
Proof.
  intros HPQ Hm errs. destruct (Hm errs) as (r & out & Hrun & Hout).
  exists r, out. split; [done|]. by eapply Forall_impl.
Qed.

Lemma returns_weaken (P Q : string → Prop) (m : check A) :
  (∀ msg, P msg → Q msg) → returns P m → returns Q m.
Proof.
  intros HPQ Hm errs. destruct (Hm errs) as (r & out & Hrun & Hout).
  exists r, out. split; [done|]. by eapply Forall_impl.
Qed.

Lemma returns_appends (P : string → Prop) (m : check A) : returns P m → appends P m.
Proof. intros Hm errs. destruct (Hm errs) as (a & out & Hrun & Hout). by exists (Ok a), out. Qed.

Lemma appends_ret (P : string → Prop) (a : A) : appends P (mret a).
Proof. intros errs. exists (Ok a), []. by rewrite app_nil_r. Qed.

Lemma returns_ret (P : string → Prop) (a : A) : returns P (mret a).
Proof. intros errs. exists a, []. by rewrite app_nil_r. Qed.

Lemma appends_raise (P : string → Prop) (e : exn) : appends P (raise (A:=A) e).
Proof. intros errs. exists (Raise e), []. by rewrite app_nil_r. Qed.

Lemma appends_lift (P : string → Prop) (r : result A) : appends P (lift r).
Proof. intros errs. exists r, []. by rewrite app_nil_r. Qed.

Lemma appends_bind {B} (P : string → Prop) (m : check A) (k : A → check B) :
  appends P m → (∀ a, appends P (k a)) → appends P (m ≫= k).
Proof.
  intros Hm Hk errs. destruct (Hm errs) as ([a|e] & out & Hrun & Hout).
  - rewrite (bind_ok _ _ _ _ _ Hrun).
    destruct (Hk a (errs ++ out)) as (r & out' & -> & Hout').
    exists r, (out ++ out'). rewrite app_assoc. split; [done|]. by apply Forall_app.
  - rewrite (bind_raise _ _ _ _ _ Hrun). by exists (Raise e), out.
Qed.

Lemma returns_bind {B} (P : string → Prop) (m : check A) (k : A → check B) :
  returns P m → (∀ a, returns P (k a)) → returns P (m ≫= k).
Proof.
  intros Hm Hk errs. destruct (Hm errs) as (a & out & Hrun & Hout).
  rewrite (bind_ok _ _ _ _ _ Hrun).
  destruct (Hk a (errs ++ out)) as (b & out' & -> & Hout').
  exists b, (out ++ out'). rewrite app_assoc. split; [done|]. by apply Forall_app.
Qed.

(** A [try] statement whose handler returns: the statement returns. *)
Lemma returns_try_except (P : string → Prop) (body : check A) (handler : exn → check A) :
  appends P body → (∀ e, returns P (handler e)) → returns P (try_except body handler).
Proof.
  intros Hbody Hhandler errs. unfold try_except.
  destruct (Hbody errs) as ([a|e] & out & -> & Hout).
  - by exists a, out.
  - destruct (Hhandler e (errs ++ out)) as (a & out' & -> & Hout').
    exists a, (out ++ out'). rewrite app_assoc. split; [done|]. by apply Forall_app.
Qed.

End Outcomes.

Lemma appends_append (P : string → Prop) (msg : string) : P msg → appends P (append msg).
Proof. intros Hmsg errs. exists (Ok tt), [msg]. split; [done|]. by constructor. Qed.

Lemma returns_append (P : string → Prop) (msg : string) : P msg → returns P (append msg).
Proof. intros Hmsg errs. exists tt, [msg]. split; [done|]. by constructor. Qed.

Lemma appends_when (P : string → Prop) (cond : bool) (m : check unit) :
  appends P m → appends P (when cond m).
Proof. destruct cond; [done|]. intros _. apply appends_ret. Qed.

Lemma returns_when (P : string → Prop) (cond : bool) (m : check unit) :
  returns P m → returns P (when cond m).
Proof. destruct cond; [done|]. intros _. apply returns_ret. Qed.

Lemma appends_for_each {A} (P : string → Prop) (xs : list A) (body : A → check unit) :
  (∀ x, x ∈ xs → appends P (body x)) → appends P (for_each xs body).
Proof.
  induction xs as [|x xs IH]; intros Hbody; cbn [for_each]; [apply appends_ret|].
  apply appends_bind; [apply Hbody; by left|].
  intros _. apply IH. intros y Hy. apply Hbody. by right.
Qed.

Lemma returns_for_each {A} (P : string → Prop) (xs : list A) (body : A → check unit) :
  (∀ x, x ∈ xs → returns P (body x)) → returns P (for_each xs body).
Proof.
  induction xs as [|x xs IH]; intros Hbody; cbn [for_each]; [apply returns_ret|].
  apply returns_bind; [apply Hbody; by left|].
  intros _. apply IH. intros y Hy. apply Hbody. by right.
Qed.

Lemma appends_for_fold {A S} (P : string → Prop) (xs : list A) (body : A → S → check S) :
  (∀ x s, appends P (body x s)) → ∀ s, appends P (for_fold xs body s).
Proof.
  intros Hbody. induction xs as [|x xs IH]; intros s; cbn [for_fold]; [apply appends_ret|].
  by apply appends_bind.
Qed.

Lemma returns_for_fold {A S} (P : string → Prop) (xs : list A) (body : A → S → check S) :
  (∀ x s, returns P (body x s)) → ∀ s, returns P (for_fold xs body s).
Proof.
  intros Hbody. induction xs as [|x xs IH]; intros s; cbn [for_fold]; [apply returns_ret|].
  by apply returns_bind.
Qed.

Lemma for_each_ext {A} (xs : list A) (body body' : A → check unit) :
  (∀ x, x ∈ xs → body x = body' x) → for_each xs body = for_each xs body'.
Proof.
  induction xs as [|x xs IH]; intros Hbody; cbn [for_each]; [done|].
  rewrite (Hbody x) by by left. rewrite IH; [done|].
  intros y Hy. apply Hbody. by right.
Qed.


(** ** load_sets *)

Section LoadSets.

Lemma dict_set_fresh {K V} `{EqDecision K} (k : K) (v : V) (d : dict_of K V) :
  k ∉ dict_keys d → dict_set k v d = d ++ [(k, v)].
Proof.
  induction d as [|[k' v'] d IH]; [done|]. cbn. intros Hk.
  rewrite not_elem_of_cons in Hk. destruct Hk as [Hne Hk].
  rewrite decide_False by done. by rewrite IH.
Qed.

Lemma dict_get_app {K V} `{EqDecision K} (k : K) (d1 d2 : dict_of K V) :
  dict_get k (d1 ++ d2) =
  match dict_get k d1 with Some v => Some v | None => dict_get k d2 end.
Proof.
  induction d1 as [|[k' v'] d1 IH]; [done|]. cbn. by destruct (decide (k = k')).
Qed.

Lemma dict_get_None {K V} `{EqDecision K} (k : K) (d : dict_of K V) :
  dict_get k d = None ↔ k ∉ dict_keys d.
Proof.
  induction d as [|[k' v'] d IH]; cbn.
  - split; [intros _; apply not_elem_of_nil | done].
  - rewrite not_elem_of_cons. destruct (decide (k = k')); naive_solver.
Qed.

(** The loop of [load_sets], from the dictionary and the local list of
    findings built so far: it raises at the first record without primary that
    follows another one, and otherwise keeps the first record of each
    primary. *)
Lemma load_sets_loop sets : ∀ earlier check_sets load_sets_errors,
  (∀ p, p ∈ dict_keys check_sets ↔ p ∈ raw_primary <$> earlier) →
  if existsb Spec.lacks_primary (Spec.repeated_claims earlier sets)
  then ∃ load_sets_errors',
         for_fold sets load_sets_step check_sets load_sets_errors =
           (Raise TypeError_None_plus_str, load_sets_errors')
  else for_fold sets load_sets_step check_sets load_sets_errors =
         (Ok (check_sets ++ (Spec.to_entry <$> Spec.first_claims earlier sets)),
          load_sets_errors ++ (Spec.repeated_claims earlier sets ≫= Spec.duplicate_finding)).
Proof.
  induction sets as [|fpset sets IH]; intros earlier cs es Hkeys.
  { cbn. by rewrite !app_nil_r. }
  cbn [for_fold Spec.first_claims Spec.repeated_claims]. unfold Spec.repeats.
  destruct (decide (raw_primary fpset ∈ raw_primary <$> earlier)) as [Hin|Hout].
  - rewrite (bool_decide_eq_true_2 _ Hin). cbn [app existsb].
    unfold Spec.lacks_primary at 1. rewrite bind_cons. unfold Spec.duplicate_finding at 1.
    destruct (raw_primary fpset) as [primary|] eqn:Hprimary.
    + rewrite bool_decide_eq_false_2 by done. cbn [orb].
      assert (Hstep : load_sets_step fpset cs es = (Ok cs, es ++ [msg_duplicate_primary primary])).
      { unfold load_sets_step, dict_has. rewrite Hprimary.
        rewrite bool_decide_eq_true_2 by (by apply Hkeys). done. }
      rewrite (bind_ok _ _ _ _ _ Hstep).
      specialize (IH (earlier ++ [fpset]) cs (es ++ [msg_duplicate_primary primary])).
      assert (Hkeys' : ∀ p, p ∈ dict_keys cs ↔ p ∈ raw_primary <$> earlier ++ [fpset]).
      { intros p. rewrite fmap_app, elem_of_app, Hkeys. cbn.
        rewrite list_elem_of_singleton, Hprimary. split; [by left|].
        intros [ ? | -> ]; first [done | by rewrite <-Hprimary]. }
      specialize (IH Hkeys').
      destruct (existsb Spec.lacks_primary (Spec.repeated_claims (earlier ++ [fpset]) sets)).
      * exact IH.
      * rewrite IH. by rewrite <-app_assoc.
    + rewrite bool_decide_eq_true_2 by done. cbn [orb]. exists es.
      apply bind_raise. unfold load_sets_step, dict_has. rewrite Hprimary.
      rewrite bool_decide_eq_true_2 by (by apply Hkeys). done.
  - rewrite (bool_decide_eq_false_2 _ Hout). cbn [app].
    assert (Hstep : load_sets_step fpset cs es = (Ok (cs ++ [Spec.to_entry fpset]), es)).
    { unfold load_sets_step, dict_has.
      rewrite bool_decide_eq_false_2 by (by rewrite Hkeys).
      by rewrite dict_set_fresh by (by rewrite Hkeys). }
    rewrite (bind_ok _ _ _ _ _ Hstep).
    specialize (IH (earlier ++ [fpset]) (cs ++ [Spec.to_entry fpset]) es).
    assert (Hkeys' : ∀ p, p ∈ dict_keys (cs ++ [Spec.to_entry fpset]) ↔
                          p ∈ raw_primary <$> earlier ++ [fpset]).
    { intros p. unfold dict_keys. rewrite !fmap_app, !elem_of_app.
      fold (dict_keys cs). rewrite Hkeys. cbn. by rewrite !list_elem_of_singleton. }
    specialize (IH Hkeys').
    destruct (existsb Spec.lacks_primary (Spec.repeated_claims (earlier ++ [fpset]) sets)).
    + exact IH.
    + rewrite IH, fmap_cons. by rewrite <-app_assoc.
Qed.

(** What [load_sets] does: it raises when a record without primary follows
    another one, and otherwise returns the first record of each primary and
    adds the finding of each record that repeats one. *)
Lemma load_sets_run (sets : list raw_set) (errs : list string) :
  load_sets sets errs =
    if Spec.missing_primary_repeated sets
    then (Raise TypeError_None_plus_str, errs)
    else (Ok (Spec.to_entry <$> Spec.first_claims [] sets),
          errs ++ (Spec.repeated_claims [] sets ≫= Spec.duplicate_finding)).
Proof.
  unfold load_sets, Spec.missing_primary_repeated.
  pose proof (load_sets_loop sets [] [] []) as Hloop.
  destruct (existsb Spec.lacks_primary (Spec.repeated_claims [] sets)).
  - destruct Hloop as (es & ->); done.
  - by rewrite Hloop.
Qed.

Lemma first_claims_keys sets : ∀ earlier,
  NoDup (raw_primary <$> Spec.first_claims earlier sets) ∧
  (∀ p, p ∈ raw_primary <$> Spec.first_claims earlier sets ↔
        (p ∉ raw_primary <$> earlier) ∧ p ∈ raw_primary <$> sets).
Proof.
  induction sets as [|fpset sets IH]; intros earlier; cbn [Spec.first_claims].
  { split; [constructor|]. intros p. cbn. rewrite elem_of_nil. naive_solver. }
  destruct (IH (earlier ++ [fpset])) as [IHnd IHin].
  assert (Hin' : ∀ p, p ∈ raw_primary <$> Spec.first_claims (earlier ++ [fpset]) sets ↔
            (p ∉ raw_primary <$> earlier) ∧ p ≠ raw_primary fpset ∧ p ∈ raw_primary <$> sets).
  { intros p. rewrite IHin, fmap_app, elem_of_app. cbn.
    rewrite list_elem_of_singleton. naive_solver. }
  unfold Spec.repeats. case_bool_decide as Hrep; cbn [app fmap list_fmap].
  - split; [done|]. intros p. rewrite Hin', elem_of_cons. naive_solver.
  - split.
    + constructor; [|done]. rewrite Hin'. naive_solver.
    + intros p. rewrite elem_of_cons, Hin', elem_of_cons.
      destruct (decide (p = raw_primary fpset)); naive_solver.
Qed.

Lemma first_claims_get sets : ∀ earlier p,
  dict_get p (Spec.to_entry <$> Spec.first_claims earlier sets) =
    if decide (p ∈ raw_primary <$> earlier) then None
    else Spec.to_FpsSet <$> head (filter (λ fpset, raw_primary fpset = p) sets).
Proof.
  induction sets as [|fpset sets IH]; intros earlier p; cbn [Spec.first_claims].
  { cbn. by case_decide. }
  rewrite fmap_app, dict_get_app, IH, filter_cons.
  unfold Spec.repeats.
  destruct (decide (raw_primary fpset = p)) as [<-|Hne].
  - case_bool_decide as Hrep; cbn.
    + by rewrite !decide_True by (done || set_solver).
    + by rewrite decide_True, decide_False by done.
  - assert (dict_get p (Spec.to_entry <$> (if bool_decide (raw_primary fpset ∈ raw_primary <$> earlier) then [] else [fpset])) = None) as ->.
    { case_bool_decide; cbn; [done|]. by rewrite decide_False. }
    repeat case_decide; try done; exfalso; set_solver.
Qed.

Lemma claims_length sets : ∀ earlier,
  length (Spec.first_claims earlier sets) + length (Spec.repeated_claims earlier sets)
  = length sets.
Proof.
  induction sets as [|fpset sets IH]; intros earlier; [done|].
  cbn [Spec.first_claims Spec.repeated_claims]. rewrite !length_app.
  specialize (IH (earlier ++ [fpset])). destruct (Spec.repeats earlier fpset); cbn; lia.
Qed.

(** Without a repeated missing primary, each repeating record has its
    finding. *)
Lemma duplicate_findings_length (claims : list raw_set) :
  existsb Spec.lacks_primary claims = false →
  length (claims ≫= Spec.duplicate_finding) = length claims.
Proof.
  induction claims as [|fpset claims IH]; [done|]. cbn [existsb].
  intros [Hhead Hrest]%orb_false_iff. rewrite bind_cons, length_app, IH by done.
  unfold Spec.lacks_primary in Hhead. unfold Spec.duplicate_finding.
  case_bool_decide as Hnone; [done|]. by destruct (raw_primary fpset).
Qed.

(** A record without primary repeats a primary exactly when an earlier record
    has none: a submission repeats a missing primary exactly when two of its
    records lack one. *)
Lemma repeated_missing_count sets : ∀ earlier,
  existsb Spec.lacks_primary (Spec.repeated_claims earlier sets) = true ↔
  (None ∈ raw_primary <$> earlier) ∧ 1 ≤ length (filter (λ fpset, raw_primary fpset = None) sets) ∨
  2 ≤ length (filter (λ fpset, raw_primary fpset = None) sets).
Proof.
  induction sets as [|fpset sets IH]; intros earlier.
  { cbn. split; [done|]. intros [[_ ?]|?]; lia. }
  cbn [Spec.repeated_claims]. rewrite existsb_app, orb_true_iff, IH, filter_cons.
  rewrite fmap_app, elem_of_app. cbn [fmap list_fmap]. rewrite list_elem_of_singleton.
  unfold Spec.repeats, Spec.lacks_primary.
  destruct (decide (raw_primary fpset = None)) as [Hnone|Hsome]; cbn [length];
    case_bool_decide as Hrep; cbn [existsb orb]; try case_bool_decide;
    try rewrite Hnone in *; intuition (try lia; try congruence; try done).
Qed.

End LoadSets.

(** C4 (as amended).  On a submission in which at most one record lacks a
    primary, [load_sets] returns its mapping: each record whose primary an
    earlier record already claimed adds exactly one duplicate-primary finding
    and is left out, and the mapping has one entry per primary, built from the
    first record that claims it.  When a second record lacks a primary,
    [load_sets] raises the [TypeError] of [None + str] at that record: no
    mapping is returned, and the findings gathered so far are not added. *)
Theorem load_sets_keeps_first_claim (sets : list raw_set) (errs : list string) :
  (Spec.missing_primary_repeated sets = true ↔
   2 ≤ length (filter (λ fpset, raw_primary fpset = None) sets)) ∧
  (Spec.missing_primary_repeated sets = false →
   ∃ check_sets,
     load_sets sets errs =
       (Ok check_sets, errs ++ (Spec.repeated_claims [] sets ≫= Spec.duplicate_finding)) ∧
     length (Spec.repeated_claims [] sets ≫= Spec.duplicate_finding) =
       length (Spec.repeated_claims [] sets) ∧
     NoDup (dict_keys check_sets) ∧
     (∀ p, dict_get p check_sets =
           Spec.to_FpsSet <$> head (filter (λ fpset, raw_primary fpset = p) sets)) ∧
     length check_sets + length (Spec.repeated_claims [] sets) = length sets) ∧
  (Spec.missing_primary_repeated sets = true →
   load_sets sets errs = (Raise TypeError_None_plus_str, errs)).
Proof.
  split_and!.
  - unfold Spec.missing_primary_repeated. rewrite (repeated_missing_count sets []).
    cbn. rewrite elem_of_nil. tauto.
  - intros Hmissing. exists (Spec.to_entry <$> Spec.first_claims [] sets).
    rewrite load_sets_run, Hmissing. split_and!.
    + done.
    + by apply duplicate_findings_length.
    + unfold dict_keys. rewrite <-list_fmap_compose.
      apply (first_claims_keys sets []).
    + intros p. rewrite first_claims_get. by rewrite decide_False by apply not_elem_of_nil.
    + rewrite length_fmap. apply claims_length.
  - intros Hmissing. by rewrite load_sets_run, Hmissing.
Qed.

(** The theorem on a submission of three records, the third repeating the
    primary of the first: one finding, two entries. *)
Lemma load_sets_keeps_first_claim_witness :
  ∃ check_sets,
    load_sets [Examples.record_service; Examples.record_no_primary; Examples.record_twice] [] =
      (Ok check_sets, [msg_duplicate_primary "https://p.example"]) ∧
    length check_sets = 2.
Proof.
  destruct (load_sets_keeps_first_claim
              [Examples.record_service; Examples.record_no_primary; Examples.record_twice] [])
    as (_ & Hreturns & _).
  destruct Hreturns as (check_sets & Hrun & _ & _ & _ & Hlength); [reflexivity|].
  exists check_sets. split; [exact Hrun|].
  change (length (Spec.repeated_claims []
            [Examples.record_service; Examples.record_no_primary; Examples.record_twice]))
    with 1 in Hlength.
  cbn [length] in Hlength. lia.
Defined.

(** C4 (as stated) fails: on a submission with two records that lack a primary
    [load_sets] returns no mapping. *)
Lemma load_sets_raises_on_repeated_missing_primary :
  ¬ (∀ sets : list raw_set, ∃ check_sets out, load_sets sets [] = (Ok check_sets, out)).
Proof.
  intros H.
  destruct (H [Examples.record_no_primary; Examples.record_no_primary])
    as (check_sets & out & Hrun).
  vm_compute in Hrun. discriminate Hrun.
Qed.

(** ** find_non_https_urls *)

Section NonHttps.



End NonHttps.


(** ** has_all_rationales *)

Section Rationales.

Variable py_repr : string → string.

Lemma rationale_sites_items {P} (fps : FpsSet_of P) :
  items_of (rationale_sites fps) = Spec.listed_sites fps.
Proof.
  unfold rationale_sites, Spec.listed_sites.
  destruct (associated_sites fps) as [[|a l]|], (service_sites fps) as [[|s l']|];
    cbn; by rewrite ?app_nil_r.
Qed.

Lemma rationale_sites_present {P} (fps : FpsSet_of P) :
  Spec.listed_sites fps ≠ [] → rationale_sites fps ≠ None.
Proof.
  unfold rationale_sites, Spec.listed_sites.
  by destruct (associated_sites fps) as [[|a l]|], (service_sites fps) as [[|s l']|].
Qed.

Lemma emits_missing_rationales (sites : list string) (rationales : gmap string string) :
  emits (for_each sites (λ site,
           when (bool_decide (site ∉ dom rationales)) (append (msg_no_rationale site))))
        (msg_no_rationale <$> filter (λ site, site ∉ dom rationales) sites).
Proof.
  eapply emits_eq.
  - apply (emits_for_each _ _ (λ site,
      if bool_decide (site ∉ dom rationales) then [msg_no_rationale site] else [])).
    intros site _. apply emits_when, emits_append.
  - induction sites as [|site sites IH]; [done|].
    rewrite bind_cons, IH, filter_cons.
    case_bool_decide; case_decide; done.
Qed.

Lemma emits_check_rationales_absent (sites : option (list string)) :
  sites ≠ None → emits (check_rationales sites None) [msg_rationale_required].
Proof.
  intros Hsites. unfold check_rationales.
  apply (emits_bind _ _ [] [msg_rationale_required]); [apply emits_ret|].
  rewrite bool_decide_eq_true_2 by done. apply emits_append.
Qed.

Lemma emits_check_rationales_present (sites : option (list string))
    (rationales : gmap string string) :
  emits (check_rationales sites (Some rationales))
        (msg_no_rationale <$> filter (λ site, site ∉ dom rationales) (items_of sites)).
Proof.
  unfold check_rationales. rewrite when_truthy.
  eapply emits_eq.
  - apply emits_bind; [apply emits_missing_rationales|].
    rewrite andb_false_r. apply emits_ret.
  - by rewrite app_nil_r.
Qed.

Lemma msg_no_rationale_inj (site site' : string) :
  msg_no_rationale site = msg_no_rationale site' → site = site'.
Proof. unfold msg_no_rationale. cbn. intros H. by simplify_eq. Qed.

Lemma count_missing_rationales (rationales : gmap string string) (site : string)
    (sites : list string) :
  site ∉ dom rationales →
  length (filter (λ msg, msg = msg_no_rationale site)
            (msg_no_rationale <$> filter (λ site', site' ∉ dom rationales) sites)) =
  length (filter (λ site', site' = site) sites).
Proof.
  intros Hsite. induction sites as [|site' sites IH]; [done|].
  rewrite (filter_cons (λ site', site' = site)), (filter_cons (λ site', site' ∉ dom rationales)).
  destruct (decide (site' = site)) as [->|Hne].
  - rewrite decide_True by done. rewrite fmap_cons, filter_cons, decide_True by done.
    cbn. by rewrite IH.
  - case_decide; [|done]. rewrite fmap_cons, filter_cons, decide_False; [done|].
    intros Heq. by apply msg_no_rationale_inj in Heq.
Qed.

End Rationales.

Section RationalesOfLoadedSets.

Variable py_repr : string → string.

(** The model that [load_sets] returns. *)
Lemma loaded_model (sets : list raw_set) (check_sets : loaded_sets)
    (errs errs' : list string) :
  load_sets sets errs = (Ok check_sets, errs') →
  check_sets = Spec.to_entry <$> Spec.first_claims [] sets.
Proof.
  rewrite load_sets_run. destruct (Spec.missing_primary_repeated sets); [done|].
  by intros [= <- _].
Qed.

Lemma loaded_get (sets : list raw_set) (p : option string) :
  dict_get p (Spec.to_entry <$> Spec.first_claims [] sets) =
    Spec.to_FpsSet <$> Behaviour.first_with_primary sets p.
Proof. rewrite first_claims_get. by rewrite decide_False by apply not_elem_of_nil. Qed.

(** Every record has a first record with its primary. *)
Lemma first_with_primary_elem (sets : list raw_set) (fpset : raw_set) :
  fpset ∈ sets →
  ∃ first, Behaviour.first_with_primary sets (raw_primary fpset) = Some first ∧
           raw_primary first = raw_primary fpset ∧ first ∈ sets.
Proof.
  intros Hin. unfold Behaviour.first_with_primary.
  destruct (filter (λ fpset', raw_primary fpset' = raw_primary fpset) sets)
    as [|first rest] eqn:Hfilter.
  - exfalso. by eapply (filter_nil_not_elem_of _ _ fpset Hfilter).
  - exists first. split; [done|].
    assert (Hfirst : first ∈ filter (λ fpset', raw_primary fpset' = raw_primary fpset) sets).
    { rewrite Hfilter. by left. }
    by apply list_elem_of_filter in Hfirst.
Qed.

Lemma emits_check_rationales (sites : option (list string))
    (rationales : option (gmap string string)) :
  emits (check_rationales sites rationales) (Behaviour.rationale_findings_of sites rationales).
Proof.
  destruct rationales as [rationales|]; [apply emits_check_rationales_present|].
  unfold Behaviour.rationale_findings_of. case_bool_decide as Hsites.
  - by apply emits_check_rationales_absent.
  - unfold check_rationales. apply (emits_bind _ _ [] []); [apply emits_ret|].
    subst sites. apply emits_ret.
Qed.

Lemma rationale_record_found (check_sets : loaded_sets) (fpset : raw_set) (fps : loaded_set) :
  dict_get (raw_primary fpset) check_sets = Some fps →
  emits (rationale_record py_repr check_sets fpset)
        (Behaviour.rationale_findings_of (rationale_sites fps) (raw_rationaleBySite fpset)).
Proof. intros Hget. unfold rationale_record. rewrite Hget. apply emits_check_rationales. Qed.

(** On the model that [load_sets] builds from the submission, the lookup of a
    record's primary succeeds: [has_all_rationales] never raises, and its
    findings are those of each record against the first record with its
    primary. *)
Lemma emits_has_all_rationales (sets : list raw_set) (check_sets : loaded_sets)
    (errs errs' : list string) :
  load_sets sets errs = (Ok check_sets, errs') →
  emits (has_all_rationales py_repr sets check_sets)
        (sets ≫= Behaviour.rationale_findings_of_record sets).
Proof.
  intros ->%loaded_model.
  apply (emits_for_each sets _ (Behaviour.rationale_findings_of_record sets)).
  intros fpset Hin. unfold Behaviour.rationale_findings_of_record.
  destruct (first_with_primary_elem sets fpset Hin) as (first & Hfirst & _).
  rewrite Hfirst. apply rationale_record_found. by rewrite loaded_get, Hfirst.
Qed.

End RationalesOfLoadedSets.

(** C7 (as amended).  On the model that [load_sets] built from the submission,
    the rationale checker never raises and goes through the records; the sites
    it looks at for a record are the associated sites followed by the service
    sites of the set stored under the record's primary, that is, of the first
    record with that primary.  When these lists hold at least one site and the
    record has no [rationaleBySite], the record gets exactly one finding, for
    the whole set.  When [rationaleBySite] is present, the record gets one
    finding for every occurrence, in these lists, of a domain that has no
    entry: the number of findings that name a domain is the number of times
    the two lists mention it. *)
Theorem rationale_findings (py_repr : string → string) (sets : list raw_set)
    (check_sets : loaded_sets) (errs0 errs1 errs : list string) :
  load_sets sets errs0 = (Ok check_sets, errs1) →
  has_all_rationales py_repr sets check_sets errs =
    (Ok tt, errs ++ (sets ≫= Behaviour.rationale_findings_of_record sets)) ∧
  ∀ fpset, fpset ∈ sets →
    ∃ first,
      Behaviour.first_with_primary sets (raw_primary fpset) = Some first ∧
      raw_primary first = raw_primary fpset ∧
      (raw_rationaleBySite fpset = None → Spec.listed_sites (Spec.to_FpsSet first) ≠ [] →
       Behaviour.rationale_findings_of_record sets fpset = [msg_rationale_required]) ∧
      (∀ rationales, raw_rationaleBySite fpset = Some rationales →
         Behaviour.rationale_findings_of_record sets fpset =
           msg_no_rationale <$>
             filter (λ site, site ∉ dom rationales) (Spec.listed_sites (Spec.to_FpsSet first)) ∧
         (∀ site, site ∉ dom rationales →
            length (filter (λ msg, msg = msg_no_rationale site)
                      (Behaviour.rationale_findings_of_record sets fpset)) =
            length (filter (λ site', site' = site)
                      (Spec.listed_sites (Spec.to_FpsSet first))))).
Proof.
  intros Hload. split; [by apply (emits_has_all_rationales py_repr sets _ errs0 errs1)|].
  intros fpset Hin.
  destruct (first_with_primary_elem sets fpset Hin) as (first & Hfirst & Hprimary & _).
  exists first. unfold Behaviour.rationale_findings_of_record. rewrite Hfirst.
  split_and!; [done|done| |].
  - intros -> Hsites. unfold Behaviour.rationale_findings_of.
    rewrite bool_decide_eq_true_2; [done|]. by apply rationale_sites_present.
  - intros rationales ->. unfold Behaviour.rationale_findings_of.
    rewrite rationale_sites_items. split; [done|].
    intros site Hsite. by apply count_missing_rationales.
Qed.

(** The theorem on a submission whose record has one service site and no
    [rationaleBySite], and on one whose record lists a domain twice. *)
Lemma rationale_findings_witness :
  has_all_rationales id [Examples.record_service] [Spec.to_entry Examples.record_service] [] =
    (Ok tt, [msg_rationale_required]) ∧
  has_all_rationales id [Examples.record_twice] [Spec.to_entry Examples.record_twice] [] =
    (Ok tt, [msg_no_rationale "https://a.example"; msg_no_rationale "https://a.example"]).
Proof.
  split.
  - destruct (rationale_findings id [Examples.record_service]
                [Spec.to_entry Examples.record_service] [] [] []) as [Hrun _];
      [reflexivity|].
    rewrite Hrun. reflexivity.
  - destruct (rationale_findings id [Examples.record_twice]
                [Spec.to_entry Examples.record_twice] [] [] []) as [Hrun _];
      [reflexivity|].
    rewrite Hrun. reflexivity.
Defined.

(** C7 (as stated) fails: a domain listed as associated and as service site and
    missing from [rationaleBySite] yields two findings, not one. *)
Lemma rationale_finding_per_domain_fails :
  ¬ (∀ (check_sets : loaded_sets) (fpset : raw_set) (fps : loaded_set)
       (rationales : gmap string string) (site : string),
       dict_get (raw_primary fpset) check_sets = Some fps →
       raw_rationaleBySite fpset = Some rationales →
       site ∈ Spec.listed_sites fps → site ∉ dom rationales →
       ∃ out, rationale_record id check_sets fpset [] = (Ok tt, out) ∧
              length (filter (λ msg, msg = msg_no_rationale site) out) = 1).
Proof.
  intros H.
  destruct (H [Spec.to_entry Examples.record_twice] Examples.record_twice
              (Spec.to_FpsSet Examples.record_twice) ∅ "https://a.example")
    as (out & Hrun & Hone); [reflexivity | reflexivity | by left | set_solver |].
  vm_compute in Hrun. injection Hrun as <-. vm_compute in Hone. discriminate.
Qed.

(** ** find_robots_txt, find_ads_txt and check_for_service_redirect *)

Section Policy.

Variable requests_get : string → result response.

Lemma unexpected_expected (exception_retries : string) (inst : exn) :
  unexpected exception_retries inst = negb (Spec.expected_failure exception_retries inst).
Proof. unfold unexpected, Spec.expected_failure. by rewrite negb_orb. Qed.

(** What each of the three handlers does with an exception. *)
Lemma handler_outcome (exception_retries : string) (msg : exn → string) (inst : exn)
    (errs : list string) :
  when (unexpected exception_retries inst) (append (msg inst)) errs =
    (Ok tt, errs ++ if Spec.expected_failure exception_retries inst then [] else [msg inst]).
Proof.
  rewrite unexpected_expected.
  destruct (Spec.expected_failure exception_retries inst); cbn; [|done].
  by rewrite app_nil_r.
Qed.

Lemma ads_site_answered (service_site : string) (r : response) (errs : list string) :
  requests_get (service_site +:+ "/ads.txt") = Ok r →
  ads_site requests_get service_site errs =
    (Ok tt, errs ++ if bool_decide (status_code r = 200%Z) then [msg_ads_txt service_site] else []).
Proof.
  intros Hget. unfold ads_site, try_except, lift, mbind, check_bind. rewrite Hget.
  case_bool_decide; cbn; [done|]. by rewrite app_nil_r.
Qed.

Lemma ads_site_failed (service_site : string) (inst : exn) (errs : list string) :
  requests_get (service_site +:+ "/ads.txt") = Raise inst →
  ads_site requests_get service_site errs =
    (Ok tt, errs ++ if Spec.expected_failure exception_retries_ads inst then []
                    else [msg_unexpected_ads service_site inst]).
Proof.
  intros Hget. unfold ads_site, try_except, lift, mbind, check_bind. rewrite Hget.
  apply handler_outcome.
Qed.

Lemma redirect_site_failed (service_site : string) (inst : exn) (errs : list string) :
  requests_get service_site = Raise inst →
  redirect_site requests_get service_site errs =
    (Ok tt, errs ++ if Spec.expected_failure exception_retries_root inst then []
                    else [msg_unexpected_redirect service_site inst]).
Proof.
  intros Hget. unfold redirect_site, try_except, lift, mbind, check_bind. rewrite Hget.
  apply handler_outcome.
Qed.

End Policy.

Section PolicyFindings.

Variable requests_get : string → result response.

Lemma service_loop (body : string → check unit) (check_sets : dict FpsSet)
    (out : string → list string) :
  (∀ service_site, emits (body service_site) (out service_site)) →
  emits (for_each check_sets (λ '(primary, fps),
           if negb (truthy (service_sites fps)) then mret tt
           else for_each (items_of (service_sites fps)) body))
        (Behaviour.service_sites_of check_sets ≫= out).
Proof.
  intros Hbody. unfold Behaviour.service_sites_of. rewrite list_bind_bind.
  apply (emits_for_each _ _ (λ entry : string * FpsSet,
    items_of (service_sites entry.2) ≫= out)).
  intros [primary fps] _. cbn [snd].
  assert (Hloop : emits (for_each (items_of (service_sites fps)) body)
                        (items_of (service_sites fps) ≫= out)).
  { apply emits_for_each. intros service_site _. apply Hbody. }
  by destruct (service_sites fps) as [[|]|].
Qed.

Lemma emits_handler (exception_retries : string) (msg : exn → string) (inst : exn) :
  emits (when (unexpected exception_retries inst) (append (msg inst)))
        (Behaviour.failure_finding exception_retries msg inst).
Proof. intros errs. apply handler_outcome. Qed.

Lemma emits_robots_site (service_site : string) :
  emits (robots_site requests_get service_site)
        (Behaviour.robots_finding requests_get service_site).
Proof.
  intros errs. unfold robots_site, Behaviour.robots_finding, try_except, lift.
  unfold mbind, check_bind.
  destruct (requests_get (service_site +:+ "/robots.txt")) as [r|inst];
    [|apply emits_handler].
  case_bool_decide as Hstatus; cbn [when]; [|by rewrite app_nil_r].
  destruct (requests_get service_site) as [r_service|inst]; [|apply emits_handler].
  destruct (headers r_service !! "x-robots-tag") as [tag|]; [|done].
  unfold when. repeat case_bool_decide; try done; by rewrite ?app_nil_r.
Qed.

Lemma emits_ads_site (service_site : string) :
  emits (ads_site requests_get service_site)
        (Behaviour.ads_finding requests_get service_site).
Proof.
  intros errs. unfold Behaviour.ads_finding.
  destruct (requests_get (service_site +:+ "/ads.txt")) as [r|inst] eqn:Hget.
  - by apply ads_site_answered.
  - by apply ads_site_failed.
Qed.

Lemma emits_redirect_site (service_site : string) :
  emits (redirect_site requests_get service_site)
        (Behaviour.redirect_finding requests_get service_site).
Proof.
  intros errs. unfold Behaviour.redirect_finding.
  destruct (requests_get service_site) as [r|inst] eqn:Hget;
    [|by apply redirect_site_failed].
  unfold redirect_site, try_except, lift, mbind, check_bind. rewrite Hget.
  unfold when. repeat case_bool_decide; cbn [orb]; try done; try (by rewrite app_nil_r);
    exfalso;
    match goal with
    | H : ¬ (_ ∧ _) |- _ => apply H; split; [lia | tauto]
    | H : _ ∧ _ |- _ => destruct H as [Hstatus Hurl]; first [lia | tauto]
    end.
Qed.

End PolicyFindings.

(** C9 (as amended).  None of the three policy checks ever raises, and each
    goes through every service site of every set.  At a service site, a
    request that fails with an exception whose text has the read-timeout
    signature or the connection-exhaustion signature of the check -- the one
    that names the path of the check: [/robots.txt], [/ads.txt], or [/] for
    the root page -- adds no finding, and a request that fails in any other way
    adds exactly one unexpected-error finding for the site.  In
    [find_robots_txt] the request of the root page that follows a 200 answer
    is judged with the signature of [/robots.txt] as well. *)
Theorem failed_fetch_findings (requests_get : string → result response)
    (check_sets : dict FpsSet) (errs : list string) :
  (find_robots_txt requests_get check_sets errs =
     (Ok tt, errs ++ (Behaviour.service_sites_of check_sets ≫=
                        Behaviour.robots_finding requests_get)) ∧
   find_ads_txt requests_get check_sets errs =
     (Ok tt, errs ++ (Behaviour.service_sites_of check_sets ≫=
                        Behaviour.ads_finding requests_get)) ∧
   check_for_service_redirect requests_get check_sets errs =
     (Ok tt, errs ++ (Behaviour.service_sites_of check_sets ≫=
                        Behaviour.redirect_finding requests_get))) ∧
  (∀ service_site inst,
     requests_get (service_site +:+ "/robots.txt") = Raise inst ∨
     (∃ r, requests_get (service_site +:+ "/robots.txt") = Ok r ∧ status_code r = 200%Z ∧
           requests_get service_site = Raise inst) →
     Behaviour.robots_finding requests_get service_site =
       if Spec.expected_failure exception_retries_robots inst then []
       else [msg_unexpected_robots service_site inst]) ∧
  (∀ service_site inst,
     requests_get (service_site +:+ "/ads.txt") = Raise inst →
     Behaviour.ads_finding requests_get service_site =
       if Spec.expected_failure exception_retries_ads inst then []
       else [msg_unexpected_ads service_site inst]) ∧
  (∀ service_site inst,
     requests_get service_site = Raise inst →
     Behaviour.redirect_finding requests_get service_site =
       if Spec.expected_failure exception_retries_root inst then []
       else [msg_unexpected_redirect service_site inst]).
Proof.
  split_and!.
  - revert errs. apply service_loop. apply emits_robots_site.
  - revert errs. apply service_loop. apply emits_ads_site.
  - revert errs. apply service_loop. apply emits_redirect_site.
  - intros service_site inst [Hrobots|(r & Hrobots & Hstatus & Hroot)];
      unfold Behaviour.robots_finding, Behaviour.failure_finding; rewrite Hrobots; [done|].
    by rewrite bool_decide_eq_true_2, Hroot by done.
  - intros service_site inst Hads.
    unfold Behaviour.ads_finding, Behaviour.failure_finding. by rewrite Hads.
  - intros service_site inst Hroot.
    unfold Behaviour.redirect_finding, Behaviour.failure_finding. by rewrite Hroot.
Qed.

(** The theorem on a set with one service site: on a network where every
    request times out, and on one that serves [robots.txt] and then fails the
    certificate check of the root page. *)
Lemma failed_fetch_findings_witness :
  find_robots_txt Examples.timing_out Examples.sets_service [] = (Ok tt, []) ∧
  find_ads_txt Examples.timing_out Examples.sets_service [] = (Ok tt, []) ∧
  check_for_service_redirect Examples.timing_out Examples.sets_service [] = (Ok tt, []) ∧
  find_robots_txt Examples.robots_then_failure Examples.sets_service [] =
    (Ok tt, [msg_unexpected_robots "https://svc.example" Examples.ssl_error]).
Proof.
  destruct (failed_fetch_findings Examples.timing_out Examples.sets_service [])
    as ((Hrobots & Hads & Hroot) & Frobots & Fads & Froot).
  destruct (failed_fetch_findings Examples.robots_then_failure Examples.sets_service [])
    as ((Hrobots' & _ & _) & Frobots' & _ & _).
  assert (Hsites : Behaviour.service_sites_of Examples.sets_service = ["https://svc.example"])
    by reflexivity.
  rewrite Hsites, list_bind_singleton in Hrobots, Hads, Hroot, Hrobots'.
  split_and!.
  - rewrite Hrobots, (Frobots "https://svc.example" Examples.read_timeout); [done|].
    left. reflexivity.
  - rewrite Hads, (Fads "https://svc.example" Examples.read_timeout); [done|]. reflexivity.
  - rewrite Hroot, (Froot "https://svc.example" Examples.read_timeout); [done|]. reflexivity.
  - rewrite Hrobots', (Frobots' "https://svc.example" Examples.ssl_error); [done|].
    right. exists (Response 200 ∅ "https://svc.example/robots.txt"). by split_and!.
Defined.

(** C9 (as stated) fails: in [find_robots_txt] a root page whose connection
    attempts are exhausted -- the text of the failure names the path [/], not
    [/robots.txt] -- is reported as an unexpected error, although the failure
    has the connection-exhaustion signature. *)
Lemma root_page_exhaustion_is_reported :
  ¬ (∀ (requests_get : string → result response) (primary service_site : string)
       (fps : FpsSet) (r : response) (inst : exn),
       service_sites fps = Some [service_site] →
       requests_get (service_site +:+ "/robots.txt") = Ok r → status_code r = 200%Z →
       requests_get service_site = Raise inst →
       Spec.exhausted_or_timed_out inst = true →
       find_robots_txt requests_get [(primary, fps)] [] = (Ok tt, [])).
Proof.
  intros H.
  specialize (H Examples.robots_then_exhausted "https://p.example" "https://svc.example"
                Examples.set_service (Response 200 ∅ "https://svc.example/robots.txt")
                Examples.root_exhausted eq_refl eq_refl eq_refl eq_refl eq_refl).
  vm_compute in H. discriminate H.
Qed.

(** C8.  A service site whose [/ads.txt] is answered with a successful status
    other than 200 -- 204 No Content, say -- is not reported: [find_ads_txt]
    appends nothing for it. *)
Theorem ads_txt_other_success_unreported (requests_get : string → result response)
    (service_site : string) (r : response) (errs : list string) :
  requests_get (service_site +:+ "/ads.txt") = Ok r →
  (200 < status_code r < 300)%Z →
  ads_site requests_get service_site errs = (Ok tt, errs).
Proof.
  intros Hget Hstatus. rewrite (ads_site_answered requests_get service_site r errs Hget).
  rewrite bool_decide_eq_false_2 by lia. by rewrite app_nil_r.
Qed.

(** The theorem on a network that answers 204 to every request, and the whole
    checker on a set with that service site. *)
Lemma ads_txt_other_success_unreported_witness :
  ads_site Examples.no_content "https://svc.example" [] = (Ok tt, []) ∧
  find_ads_txt Examples.no_content Examples.sets_service [] = (Ok tt, []).
Proof.
  split.
  - apply (ads_txt_other_success_unreported Examples.no_content "https://svc.example"
             (Response 204 ∅ "https://svc.example/ads.txt")); [reflexivity | cbn; lia].
  - reflexivity.
Defined.

(** ** check_exclusivity *)

Section Exclusivity.

Variable py_repr : string → string.
Variable iter_set : gset string → list string.

(** [site_list.update(primary)] registers single characters only. *)
Lemma update_primary_adds_characters (site_list : gset string) (primary site : string) :
  site ∈ update_primary site_list primary → site ∈ site_list ∨ String.length site = 1.
Proof.
  unfold update_primary. rewrite elem_of_union, elem_of_list_to_set.
  intros [?|Hin]; [by left|right].
  induction primary as [|c primary IH]; cbn in Hin.
  - by apply elem_of_nil in Hin.
  - apply elem_of_cons in Hin as [->|Hin]; [done|by apply IH].
Qed.

(** A primary of two or more characters is not registered by its own set. *)
Lemma primary_not_registered (site_list : gset string) (primary : string) :
  primary ∉ site_list → String.length primary ≠ 1 →
  primary ∉ update_primary site_list primary.
Proof.
  intros Hout Hlen Hin. by apply update_primary_adds_characters in Hin as [?|?].
Qed.

(** A set that has only a primary registers the characters of that primary. *)
Lemma exclusivity_set_primary_only (domain : string) (site_list : gset string)
    (errs : list string) :
  domain ∉ site_list →
  exclusivity_set py_repr iter_set (domain, mkFpsSet None domain None None) site_list errs =
    (Ok (update_primary site_list domain), errs).
Proof.
  intros Hout. unfold exclusivity_set. cbn [associated_sites service_sites ccTLDs truthy].
  by rewrite bool_decide_eq_false_2.
Qed.

(** A set that lists one associated site which is not registered: no finding. *)
Lemma exclusivity_set_one_associated (p domain : string) (site_list : gset string)
    (errs : list string) :
  p ∉ site_list → domain ∉ update_primary site_list p →
  exclusivity_set py_repr iter_set (p, mkFpsSet None p (Some [domain]) None) site_list errs =
    (Ok (update_primary site_list p ∪ list_to_set [domain]), errs).
Proof.
  intros Hp Hdomain. unfold exclusivity_set.
  cbn [associated_sites service_sites ccTLDs truthy items_of default].
  rewrite bool_decide_eq_false_2 by done.
  unfold mbind, check_bind, mret, check_ret.
  rewrite bool_decide_eq_false_2; [done|].
  intros Hoverlap. apply Hoverlap. set_solver.
Qed.

End Exclusivity.

(** C1.  Whenever a domain of two or more characters is the primary of a set
    and a later set lists it as its associated site, [check_exclusivity]
    reports nothing: the primary was never registered as claimed. *)
Theorem exclusivity_misses_primary_claimed_later
    (py_repr : string → string) (iter_set : gset string → list string)
    (domain later : string) :
  String.length domain ≠ 1 → String.length later ≠ 1 →
  check_exclusivity py_repr iter_set
    [(domain, mkFpsSet None domain None None);
     (later, mkFpsSet None later (Some [domain]) None)] [] = (Ok tt, []).
Proof.
  intros Hdomain Hlater. unfold check_exclusivity.
  assert (Hregistered : ∀ site, site ∈ update_primary ∅ domain → String.length site = 1).
  { intros site [Hin|Hlen]%update_primary_adds_characters; [|done].
    by apply elem_of_empty in Hin. }
  assert (Hlater' : later ∉ update_primary ∅ domain).
  { intros Hin. by apply Hregistered in Hin. }
  assert (Hdomain' : domain ∉ update_primary (update_primary ∅ domain) later).
  { intros [Hin|Hlen]%update_primary_adds_characters; [|done].
    by apply Hregistered in Hin. }
  assert (Hrun : for_fold [(domain, mkFpsSet None domain None None);
                           (later, mkFpsSet None later (Some [domain]) None)]
                   (exclusivity_set py_repr iter_set) ∅ [] =
                 (Ok (update_primary (update_primary ∅ domain) later ∪ list_to_set [domain]),
                  [])).
  { cbn [for_fold].
    rewrite (bind_ok _ _ _ _ _
      (exclusivity_set_primary_only py_repr iter_set domain ∅ [] (not_elem_of_empty _))).
    by rewrite (bind_ok _ _ _ _ _
      (exclusivity_set_one_associated py_repr iter_set later domain _ [] Hlater' Hdomain')). }
  by rewrite (bind_ok _ _ _ _ _ Hrun).
Qed.

(** The theorem on the two sets of [Examples.sets_a_b]. *)
Lemma exclusivity_misses_primary_claimed_later_witness :
  check_exclusivity id elements Examples.sets_a_b [] = (Ok tt, []).
Proof.
  apply (exclusivity_misses_primary_claimed_later id elements
           "https://a.example" "https://b.example"); vm_compute; discriminate.
Defined.

(** ** find_invalid_alias_eSLDs *)

Section Splitting.




Lemma split_dot_nonempty (s : string) : PyStr.split_dot s ≠ [].
Proof.
  destruct s as [|c s]; cbn; [done|].
  destruct (decide (c = PyStr.dot)); [done|]. by destruct (PyStr.split_dot s).
Qed.


End Splitting.

Section Loops.

Context {A S : Type}.



End Loops.

Section Aliases.

Variable icanns : gset string.






End Aliases.



Section AliasFindings.

Variable icanns : gset string.









End AliasFindings.




(** ** check_list_sites and find_invalid_well_known *)

Section WellKnown.

Variable py_repr : string → string.
Variable iter_set : gset string → list string.
Variable open_and_load_json : string → result well_known.

(** The findings of the comparison of one field name that field. *)
Lemma appends_compare_field (json_schema : well_known) (curr_fps_set : FpsSet)
    (field : string) :
  appends (λ msg, ∃ members, msg = msg_field_mismatch py_repr field members)
          (compare_field py_repr json_schema curr_fps_set field).
Proof.
  unfold compare_field. case_decide as Hfield.
  - destruct (wk_primary json_schema) as [listed|]; [|apply appends_raise].
    apply appends_when, appends_append. eauto.
  - destruct (wk_field json_schema field) as [fetched|]; [|apply appends_raise].
    destruct (relevant_fields_dict curr_fps_set field) as [submitted|]; [|apply appends_raise].
    apply appends_bind.
    + destruct fetched as [?|fetched_aliases], submitted as [?|submitted_aliases];
        try apply appends_ret.
      apply appends_for_fold. intros [aliased_site fetched_sites] diff.
      destruct (dict_get aliased_site submitted_aliases); [apply appends_ret|apply appends_raise].
    + intros diff. apply appends_when, appends_append. eauto.
Qed.

(** What [compare_field] reads of the submitted set. *)
Lemma compare_field_ext (json_schema : well_known) (fps fps' : FpsSet) (field : string) :
  primary fps' = primary fps →
  relevant_fields_dict fps' field = relevant_fields_dict fps field →
  compare_field py_repr json_schema fps' field = compare_field py_repr json_schema fps field.
Proof. intros Hprimary Hfield. unfold compare_field. by rewrite Hprimary, Hfield. Qed.

Lemma check_site_failed (primary site : string) (inst : exn) (errs : list string) :
  open_and_load_json (well_known_url site) = Raise inst →
  check_site open_and_load_json primary site errs =
    (Ok tt, errs ++ [msg_access_error (well_known_url site) inst]).
Proof.
  intros Hget. unfold check_site, try_except, lift, mbind, check_bind. by rewrite Hget.
Qed.

Lemma check_primary_document_failed (primary : string) (fps : FpsSet) (inst : exn)
    (errs : list string) :
  open_and_load_json (well_known_url primary) = Raise inst →
  check_primary_document py_repr iter_set open_and_load_json primary fps errs =
    (Ok tt, errs ++ [msg_access_error (well_known_url primary) inst]).
Proof.
  intros Hget. unfold check_primary_document, try_except, lift, mbind, check_bind.
  by rewrite Hget.
Qed.

Lemma returns_check_site (primary site : string) :
  returns (λ _, True) (check_site open_and_load_json primary site).
Proof.
  unfold check_site. apply returns_try_except.
  - apply appends_bind; [apply appends_lift|]. intros json_schema.
    destruct (wk_primary json_schema); [apply appends_when|]; by apply appends_append.
  - intros inst. by apply returns_append.
Qed.

Lemma returns_check_list_sites (primary : string) (site_list : list string) :
  returns (λ _, True) (check_list_sites open_and_load_json primary site_list).
Proof. apply returns_for_each. intros site _. apply returns_check_site. Qed.

Lemma returns_check_primary_document (primary : string) (fps : FpsSet) :
  returns (λ _, True)
    (check_primary_document py_repr iter_set open_and_load_json primary fps).
Proof.
  unfold check_primary_document. apply returns_try_except.
  - apply appends_bind; [apply appends_lift|]. intros json_schema.
    apply appends_for_each. intros field _.
    eapply appends_weaken; [|apply appends_compare_field]. done.
  - intros inst. by apply returns_append.
Qed.

Lemma returns_check_member_documents (primary : string) (fps : FpsSet) :
  returns (λ _, True) (check_member_documents open_and_load_json primary fps).
Proof.
  unfold check_member_documents.
  apply returns_bind; [apply returns_when, returns_check_list_sites|]. intros _.
  apply returns_bind; [apply returns_when, returns_check_list_sites|]. intros _.
  apply returns_when, returns_bind; [|intros; apply returns_ret].
  apply returns_for_fold. intros [aliased_site alias_sites] ccTLD_sites.
  unfold check_ccTLD_documents.
  apply returns_bind; [apply returns_check_list_sites|]. intros _. apply returns_ret.
Qed.

Lemma returns_find_invalid_well_known (check_sets : dict FpsSet) :
  returns (λ _, True)
    (find_invalid_well_known py_repr iter_set open_and_load_json check_sets).
Proof.
  apply returns_for_each. intros [primary fps] _.
  apply returns_bind; [apply returns_check_primary_document|].
  intros _. apply returns_check_member_documents.
Qed.

End WellKnown.

(** C3.  A fetch of a well-known document that fails -- [open_and_load_json]
    raises, whatever the exception -- is turned into one finding that names the
    URL and the text of the exception, and the checker goes on: with the
    remaining sites of the list in [check_list_sites], with the member sites of
    the set and the remaining sets in [find_invalid_well_known].  Neither
    function ever raises. *)
Theorem fetch_failures_are_findings (py_repr : string → string)
    (iter_set : gset string → list string)
    (open_and_load_json : string → result well_known) :
  (∀ primary site rest inst errs,
     open_and_load_json (well_known_url site) = Raise inst →
     check_list_sites open_and_load_json primary (site :: rest) errs =
       check_list_sites open_and_load_json primary rest
         (errs ++ [msg_access_error (well_known_url site) inst])) ∧
  (∀ primary fps rest inst errs,
     open_and_load_json (well_known_url primary) = Raise inst →
     find_invalid_well_known py_repr iter_set open_and_load_json ((primary, fps) :: rest) errs =
       (check_member_documents open_and_load_json primary fps;;
        find_invalid_well_known py_repr iter_set open_and_load_json rest)
         (errs ++ [msg_access_error (well_known_url primary) inst])) ∧
  (∀ primary site_list errs,
     ∃ out, check_list_sites open_and_load_json primary site_list errs = (Ok tt, errs ++ out)) ∧
  (∀ check_sets errs,
     ∃ out, find_invalid_well_known py_repr iter_set open_and_load_json check_sets errs =
              (Ok tt, errs ++ out)).
Proof.
  split_and!.
  - intros primary site rest inst errs Hget. unfold check_list_sites. cbn [for_each].
    by rewrite (bind_ok _ _ _ _ _ (check_site_failed _ _ _ _ _ Hget)).
  - intros primary fps rest inst errs Hget. unfold find_invalid_well_known. cbn [for_each].
    unfold mbind at 1. unfold check_bind at 1. unfold mbind at 1. unfold check_bind at 1.
    by rewrite (check_primary_document_failed _ _ _ _ _ _ _ Hget).
  - intros primary site_list errs.
    destruct (returns_check_list_sites open_and_load_json primary site_list errs)
      as ([] & out & Hrun & _). by exists out.
  - intros check_sets errs.
    destruct (returns_find_invalid_well_known py_repr iter_set open_and_load_json
                check_sets errs) as ([] & out & Hrun & _). by exists out.
Qed.

(** The theorem on a network where only the document of ["https://a.example"]
    can be fetched. *)
Lemma fetch_failures_are_findings_witness :
  check_list_sites Examples.only_document_a "https://a.example" ["https://b.example"] [] =
    (Ok tt, [msg_access_error "https://b.example/.well-known/first-party-set.json"
               Examples.connection_refused]) ∧
  find_invalid_well_known id elements Examples.only_document_a
    [("https://b.example", Examples.set_b)] [] =
    (Ok tt, [msg_access_error "https://b.example/.well-known/first-party-set.json"
               Examples.connection_refused;
             msg_other_primary "https://b.example" "https://a.example"]).
Proof.
  destruct (fetch_failures_are_findings id elements Examples.only_document_a)
    as (Hsite & Hset & _ & _).
  split.
  - rewrite (Hsite "https://a.example" "https://b.example" [] Examples.connection_refused [])
      by reflexivity. reflexivity.
  - rewrite (Hset "https://b.example" Examples.set_b [] Examples.connection_refused [])
      by reflexivity. reflexivity.
Defined.

Section SharedFields.

Variable py_repr : string → string.

Lemma acceptable_fields_cases (field : string) :
  field ∈ acceptable_fields →
  field = "ccTLDs" ∨ field = "primary" ∨ field = "associatedSites" ∨ field = "serviceSites".
Proof.
  unfold acceptable_fields. rewrite elem_of_list_to_set, !elem_of_cons, elem_of_nil.
  tauto.
Qed.

(** The finding of a recognised field tells which field it is about. *)
Lemma msg_field_mismatch_field (field field' : string) (members members' : list string) :
  field ∈ acceptable_fields → field' ∈ acceptable_fields →
  msg_field_mismatch py_repr field members = msg_field_mismatch py_repr field' members' →
  field = field'.
Proof.
  intros Hfield Hfield'.
  apply acceptable_fields_cases in Hfield as [ -> | [ -> | [ -> | -> ] ] ];
    apply acceptable_fields_cases in Hfield' as [ -> | [ -> | [ -> | -> ] ] ];
    try done; unfold msg_field_mismatch; cbn; intros Heq; by simplify_eq.
Qed.

Lemma msg_access_error_not_mismatch (url : string) (inst : exn) (field : string)
    (members : list string) :
  msg_access_error url inst ≠ msg_field_mismatch py_repr field members.
Proof. unfold msg_access_error, msg_field_mismatch. cbn. intros Heq. by simplify_eq. Qed.

Variable iter_set : gset string → list string.
Variable open_and_load_json : string → result well_known.
Hypothesis iter_set_elements : ∀ fields, iter_set fields ≡ₚ elements fields.

Lemma elem_of_iter_set (fields : gset string) (field : string) :
  field ∈ iter_set fields ↔ field ∈ fields.
Proof. by rewrite iter_set_elements, elem_of_elements. Qed.

(** The loop over the shared fields appends findings about shared fields. *)
Lemma appends_compare_shared_fields (json_schema : well_known) (fps : FpsSet) :
  appends (λ msg, ∃ field members, field ∈ acceptable_fields ∧ field ∈ wk_keys json_schema ∧
                                  msg = msg_field_mismatch py_repr field members)
    (for_each (iter_set (acceptable_fields ∩ wk_keys json_schema))
       (compare_field py_repr json_schema fps)).
Proof.
  apply appends_for_each. intros field [Hacc Hkey]%elem_of_iter_set%elem_of_intersection.
  eapply appends_weaken; [|apply appends_compare_field].
  intros msg [members ->]. eauto.
Qed.

Lemma primary_document_fetched (p : string) (fps : FpsSet) (json_schema : well_known)
    (errs : list string) :
  open_and_load_json (well_known_url p) = Ok json_schema →
  ∃ out,
    check_primary_document py_repr iter_set open_and_load_json p fps errs =
      (Ok tt, errs ++ out) ∧
    Forall (λ msg,
      (∃ inst, msg = msg_access_error (well_known_url p) inst) ∨
      (∃ field members, field ∈ acceptable_fields ∧ field ∈ wk_keys json_schema ∧
                        msg = msg_field_mismatch py_repr field members)) out.
Proof.
  intros Hget. unfold check_primary_document, try_except, lift.
  unfold mbind at 1. unfold check_bind at 1. rewrite Hget.
  destruct (appends_compare_shared_fields json_schema fps errs) as ([[]|inst] & out & -> & Hout).
  - exists out. split; [done|]. eapply Forall_impl; [done|]. intros msg Hmsg. by right.
  - exists (out ++ [msg_access_error (well_known_url p) inst]).
    rewrite app_assoc. split; [done|]. apply Forall_app. split.
    + eapply Forall_impl; [done|]. intros msg Hmsg. by right.
    + constructor; [|done]. left. eauto.
Qed.

Lemma primary_document_ext (p : string) (fps fps' : FpsSet) (json_schema : well_known)
    (errs : list string) :
  open_and_load_json (well_known_url p) = Ok json_schema →
  primary fps' = primary fps →
  (∀ field, field ∈ wk_keys json_schema →
     relevant_fields_dict fps' field = relevant_fields_dict fps field) →
  check_primary_document py_repr iter_set open_and_load_json p fps' errs =
  check_primary_document py_repr iter_set open_and_load_json p fps errs.
Proof.
  intros Hget Hprimary Hfields. unfold check_primary_document, try_except, lift.
  unfold mbind, check_bind. rewrite Hget.
  rewrite (for_each_ext _ (compare_field py_repr json_schema fps')
                          (compare_field py_repr json_schema fps)); [done|].
  intros field [Hacc Hkey]%elem_of_iter_set%elem_of_intersection.
  apply compare_field_ext; [done|by apply Hfields].
Qed.

End SharedFields.

(** ** Further behaviour: load_sets and has_all_rationales *)

Section LoadedModel.

Variable py_repr : string → string.

Lemma claims_of_distinct_primaries (sets : list raw_set) : ∀ earlier,
  NoDup (raw_primary <$> sets) →
  (∀ fpset, fpset ∈ sets → raw_primary fpset ∉ raw_primary <$> earlier) →
  Spec.first_claims earlier sets = sets ∧ Spec.repeated_claims earlier sets = [].
Proof.
  induction sets as [|fpset sets IH]; intros earlier Hnodup Hfresh; [done|].
  cbn [Spec.first_claims Spec.repeated_claims]. unfold Spec.repeats.
  rewrite fmap_cons in Hnodup. apply NoDup_cons in Hnodup as [Hhead Hnodup].
  rewrite bool_decide_eq_false_2 by (apply Hfresh; by left).
  destruct (IH (earlier ++ [fpset]) Hnodup) as [-> ->]; [|done].
  intros fpset' Hin. rewrite fmap_app, not_elem_of_app. split.
  - apply Hfresh. by right.
  - cbn. rewrite list_elem_of_singleton. intros Heq. apply Hhead. rewrite <-Heq.
    by apply list_elem_of_fmap_2.
Qed.

End LoadedModel.

(** X1.  On a submission whose records have pairwise distinct primaries,
    [load_sets] returns one entry per record, in the order of the submission,
    and appends no finding. *)
Theorem load_sets_distinct_primaries (sets : list raw_set) (errs : list string) :
  NoDup (raw_primary <$> sets) →
  load_sets sets errs = (Ok (Spec.to_entry <$> sets), errs).
Proof.
  intros Hnodup. rewrite load_sets_run. unfold Spec.missing_primary_repeated.
  destruct (claims_of_distinct_primaries sets [] Hnodup) as [-> ->].
  - intros fpset _. apply not_elem_of_nil.
  - cbn. by rewrite app_nil_r.
Qed.

Lemma load_sets_distinct_primaries_witness :
  load_sets [MoreExamples.record_first; MoreExamples.record_other] [] =
    (Ok [Spec.to_entry MoreExamples.record_first; Spec.to_entry MoreExamples.record_other],
     []).
Proof.
  apply (load_sets_distinct_primaries
           [MoreExamples.record_first; MoreExamples.record_other] []).
  apply (bool_decide_unpack _). vm_compute. exact I.
Defined.

(** X2.  On the model that [load_sets] builds from the submission,
    [has_all_rationales] never raises, and its findings are, record by record,
    those of the record's own [rationaleBySite] against the sites of the first
    record that claims the same primary. *)
Theorem rationales_of_loaded_model (py_repr : string → string) (sets : list raw_set)
    (check_sets : loaded_sets) (errs0 errs1 errs : list string) :
  load_sets sets errs0 = (Ok check_sets, errs1) →
  has_all_rationales py_repr sets check_sets errs =
    (Ok tt, errs ++ (sets ≫= Behaviour.rationale_findings_of_record sets)).
Proof.
  intros Hload. by apply (emits_has_all_rationales py_repr sets _ errs0 errs1).
Qed.

Lemma rationales_of_loaded_model_witness :
  has_all_rationales id [MoreExamples.record_first; MoreExamples.record_repeat]
    [Spec.to_entry MoreExamples.record_first] [] = (Ok tt, [msg_rationale_required]).
Proof.
  apply (rationales_of_loaded_model id
           [MoreExamples.record_first; MoreExamples.record_repeat]
           [Spec.to_entry MoreExamples.record_first] [] 
           [msg_duplicate_primary "https://p.example"] []).
  reflexivity.
Defined.

Section MissingPrimary.

Variable py_repr : string → string.

Lemma rationale_sites_absent {P} (fps : FpsSet_of P) :
  bool_decide (rationale_sites fps ≠ None) =
  truthy (associated_sites fps) || bool_decide (service_sites fps ≠ None).
Proof.
  unfold rationale_sites.
  by destruct (associated_sites fps) as [[|a l]|], (service_sites fps) as [[|s l']|].
Qed.

End MissingPrimary.



(** X4.  For a record without [rationaleBySite], the rationale checker appends
    its finding exactly when the set has a non-empty list of associated sites
    or has a list of service sites at all -- an empty [serviceSites] list
    included, while an empty [associatedSites] list alone gives no finding. *)
Theorem absent_rationale_finding (py_repr : string → string) (check_sets : loaded_sets)
    (fpset : raw_set) (fps : loaded_set) (errs : list string) :
  dict_get (raw_primary fpset) check_sets = Some fps →
  raw_rationaleBySite fpset = None →
  rationale_record py_repr check_sets fpset errs =
    (Ok tt, errs ++ if truthy (associated_sites fps) || bool_decide (service_sites fps ≠ None)
                    then [msg_rationale_required] else []).
Proof.
  intros Hget Habsent. rewrite (rationale_record_found py_repr _ _ _ Hget errs), Habsent.
  unfold Behaviour.rationale_findings_of. by rewrite rationale_sites_absent.
Qed.

Lemma absent_rationale_finding_witness :
  rationale_record id [Spec.to_entry MoreExamples.record_empty_service]
    MoreExamples.record_empty_service [] = (Ok tt, [msg_rationale_required]).
Proof.
  apply (absent_rationale_finding id [Spec.to_entry MoreExamples.record_empty_service]
           MoreExamples.record_empty_service
           (Spec.to_FpsSet MoreExamples.record_empty_service) []);
    reflexivity.
Defined.

(** ** Further behaviour: check_exclusivity *)

Section Yields.

Context {A : Type}.

Lemma yields_ret (a : A) : Behaviour.yields (mret a) a [].
Proof. intros errs. by rewrite app_nil_r. Qed.

Lemma yields_bind {B} (m : check A) (k : A → check B) a b out1 out2 :
  Behaviour.yields m a out1 → Behaviour.yields (k a) b out2 →
  Behaviour.yields (m ≫= k) b (out1 ++ out2).
Proof.
  intros Hm Hk errs. rewrite (bind_ok _ _ a errs (errs ++ out1)) by apply Hm.
  by rewrite Hk, app_assoc.
Qed.

End Yields.

Section ExclusivityRun.

Variable py_repr : string → string.
Variable iter_set : gset string → list string.




Lemma gated_aliases (aliases : option (dict (list string))) (site_list : gset string) :
  (if truthy aliases
   then for_fold (items_of aliases) (exclusivity_alias py_repr iter_set) site_list
   else mret site_list) =
  for_fold (items_of aliases) (exclusivity_alias py_repr iter_set) site_list.
Proof. by destruct aliases as [[|]|]. Qed.


End ExclusivityRun.

Section Loops2.

Context {A S : Type}.


End Loops2.

Section ExclusivityWhole.

Variable py_repr : string → string.
Variable iter_set : gset string → list string.




End ExclusivityWhole.



Section ExclusivityClean.

Variable py_repr : string → string.
Variable iter_set : gset string → list string.

(** A role none of whose domains is registered: no finding, all registered. *)
Lemma role_clean (msg : gset string → string) (sites : list string) (site_list : gset string) :
  (∀ domain, domain ∈ sites → domain ∉ site_list) →
  Behaviour.yields
    (if bool_decide (list_to_set sites ∩ site_list ≠ ∅)
     then append (msg (list_to_set sites ∩ site_list));; mret site_list
     else mret (site_list ∪ list_to_set sites)) (site_list ∪ list_to_set sites) [].
Proof.
  intros Hnew. rewrite bool_decide_eq_false_2; [apply yields_ret|].
  intros Hoverlap. apply Hoverlap. set_solver.
Qed.

Lemma gated_role_clean (msg : gset string → string) (sites : option (list string))
    (site_list : gset string) :
  (∀ domain, domain ∈ items_of sites → domain ∉ site_list) →
  ∃ site_list',
    Behaviour.yields
      (if truthy sites then
         if bool_decide (list_to_set (items_of sites) ∩ site_list ≠ ∅)
         then append (msg (list_to_set (items_of sites) ∩ site_list));; mret site_list
         else mret (site_list ∪ list_to_set (items_of sites))
       else mret site_list) site_list' [] ∧
    (∀ domain, domain ∈ site_list' ↔ domain ∈ site_list ∨ domain ∈ items_of sites).
Proof.
  intros Hnew. destruct (truthy sites) eqn:Htruthy.
  - eexists. split; [by apply role_clean|]. set_solver.
  - exists site_list. split; [apply yields_ret|].
    assert (items_of sites = []) as -> by (by destruct sites as [[|]|]). set_solver.
Qed.

Lemma aliases_clean (aliases : dict (list string)) : ∀ site_list,
  NoDup (aliases ≫= snd) →
  (∀ domain, domain ∈ aliases ≫= snd → domain ∉ site_list) →
  ∃ site_list',
    Behaviour.yields
      (for_fold aliases (exclusivity_alias py_repr iter_set) site_list) site_list' [] ∧
    (∀ domain, domain ∈ site_list' ↔ domain ∈ site_list ∨ domain ∈ aliases ≫= snd).
Proof.
  induction aliases as [|[aliased_site alias_sites] aliases IH]; intros site_list Hnodup Hnew.
  { exists site_list. split; [apply yields_ret|]. set_solver. }
  rewrite bind_cons in Hnodup, Hnew. cbn [snd] in Hnodup, Hnew.
  apply NoDup_app in Hnodup as (_ & Hapart & Hnodup).
  destruct (IH (site_list ∪ list_to_set alias_sites) Hnodup) as (site_list' & Hrun & Hin).
  { intros domain Hdomain. rewrite not_elem_of_union, elem_of_list_to_set. split.
    - apply Hnew. set_solver.
    - intros Hsite. by apply (Hapart domain). }
  exists site_list'. split.
  - cbn [for_fold]. apply (yields_bind _ _ (site_list ∪ list_to_set alias_sites) _ [] []);
      [|done].
    apply (role_clean (msg_ccTLD_registered py_repr iter_set)). intros domain Hdomain.
    apply Hnew. set_solver.
  - intros domain. rewrite Hin, bind_cons. cbn [snd]. set_solver.
Qed.

(** A set whose domains are new, distinct and longer than one character. *)
Lemma exclusivity_set_clean (entry : string * FpsSet) (site_list : gset string) :
  NoDup (Behaviour.claimed_domains entry) →
  (∀ domain, domain ∈ Behaviour.claimed_domains entry →
     (domain ∉ site_list) ∧ String.length domain ≠ 1) →
  ∃ site_list',
    Behaviour.yields (exclusivity_set py_repr iter_set entry site_list) site_list' [] ∧
    (∀ domain, domain ∈ site_list' →
       domain ∈ site_list ∨ String.length domain = 1 ∨
       domain ∈ Behaviour.list_role_domains entry.2).
Proof.
  destruct entry as [p fps]. unfold Behaviour.claimed_domains, Behaviour.list_role_domains.
  cbn [fst snd]. intros Hnodup Hnew.
  apply NoDup_cons in Hnodup as [_ Hnodup].
  apply NoDup_app in Hnodup as (_ & Hassociated & Hnodup).
  apply NoDup_app in Hnodup as (_ & Hservice & Hnodup).
  assert (Hp : p ∉ site_list) by (apply Hnew; by left).
  assert (Hroles : ∀ domain,
    domain ∈ items_of (associated_sites fps) ++ items_of (service_sites fps) ++
             (items_of (ccTLDs fps) ≫= snd) →
    domain ∉ update_primary site_list p).
  { intros domain Hdomain Hin. destruct (Hnew domain) as [Hout Hlen]; [by right|].
    by apply update_primary_adds_characters in Hin as [?|?]. }
  destruct (gated_role_clean (msg_associated_registered py_repr iter_set)
              (associated_sites fps) (update_primary site_list p))
    as (site_list1 & Hrun1 & Hin1).
  { intros domain Hdomain. apply Hroles. set_solver. }
  destruct (gated_role_clean (msg_service_registered py_repr iter_set)
              (service_sites fps) site_list1) as (site_list2 & Hrun2 & Hin2).
  { intros domain Hdomain. rewrite Hin1. intros [Hin|Hin].
    - revert Hin. apply Hroles. set_solver.
    - apply (Hassociated domain Hin). set_solver. }
  destruct (aliases_clean (items_of (ccTLDs fps)) site_list2 Hnodup)
    as (site_list3 & Hrun3 & Hin3).
  { intros domain Hdomain. rewrite Hin2, Hin1. intros [[Hin|Hin]|Hin].
    - revert Hin. apply Hroles. set_solver.
    - apply (Hassociated domain Hin). set_solver.
    - by apply (Hservice domain Hin). }
  exists site_list3. split.
  - unfold exclusivity_set. rewrite bool_decide_eq_false_2 by done.
    apply (yields_bind _ _ (update_primary site_list p) _ [] []); [apply yields_ret|].
    apply (yields_bind _ _ site_list1 _ [] []); [done|].
    apply (yields_bind _ _ site_list2 _ [] []); [done|].
    by rewrite gated_aliases.
  - intros domain. rewrite Hin3, Hin2, Hin1, !elem_of_app.
    intros [[[Hin|Hin]|Hin]|Hin]; [|tauto..].
    apply update_primary_adds_characters in Hin. tauto.
Qed.

Lemma exclusivity_clean_run (check_sets : dict FpsSet) : ∀ site_list,
  NoDup (check_sets ≫= Behaviour.claimed_domains) →
  (∀ domain, domain ∈ check_sets ≫= Behaviour.claimed_domains →
     (domain ∉ site_list) ∧ String.length domain ≠ 1) →
  ∃ site_list',
    Behaviour.yields
      (for_fold check_sets (exclusivity_set py_repr iter_set) site_list) site_list' [].
Proof.
  induction check_sets as [|entry check_sets IH]; intros site_list Hnodup Hnew.
  { exists site_list. apply yields_ret. }
  rewrite bind_cons in Hnodup, Hnew.
  apply NoDup_app in Hnodup as (Hentry & Hapart & Hnodup).
  destruct (exclusivity_set_clean entry site_list Hentry) as (site_list1 & Hrun1 & Hin1).
  { intros domain Hdomain. apply Hnew. set_solver. }
  destruct (IH site_list1 Hnodup) as (site_list2 & Hrun2).
  { intros domain Hdomain.
    destruct (Hnew domain) as [Hout Hlen]; [set_solver|]. split; [|done].
    intros [Hin|[Hin|Hin]]%Hin1; [done|done|].
    apply (Hapart domain); [|done]. unfold Behaviour.claimed_domains. by right. }
  exists site_list2. cbn [for_fold]. by apply (yields_bind _ _ site_list1 _ [] []).
Qed.

End ExclusivityClean.

(** X6.  No false alarm: on a model whose primaries, associated sites, service
    sites and alias siblings are pairwise distinct domains of more than one
    character, [check_exclusivity] appends no finding. *)
Theorem exclusivity_passes_disjoint_sets (py_repr : string → string)
    (iter_set : gset string → list string) (check_sets : dict FpsSet)
    (errs : list string) :
  NoDup (check_sets ≫= Behaviour.claimed_domains) →
  Forall (λ domain, String.length domain ≠ 1) (check_sets ≫= Behaviour.claimed_domains) →
  check_exclusivity py_repr iter_set check_sets errs = (Ok tt, errs).
Proof.
  intros Hnodup Hlen. rewrite Forall_forall in Hlen.
  destruct (exclusivity_clean_run py_repr iter_set check_sets ∅ Hnodup) as (site_list & Hrun).
  { intros domain Hdomain. split; [apply not_elem_of_empty|by apply Hlen]. }
  unfold check_exclusivity. rewrite (bind_ok _ _ _ _ _ (Hrun errs)).
  by rewrite app_nil_r.
Qed.

Lemma exclusivity_passes_disjoint_sets_witness :
  check_exclusivity id elements MoreExamples.sets_disjoint [] = (Ok tt, []).
Proof.
  apply (exclusivity_passes_disjoint_sets id elements MoreExamples.sets_disjoint []).
  - apply (bool_decide_unpack _). vm_compute. exact I.
  - apply (bool_decide_unpack _). vm_compute. exact I.
Defined.

Section ExclusivityConflict.

Variable py_repr : string → string.
Variable iter_set : gset string → list string.

(** A set with only associated sites, one of which is registered: the finding,
    and [site_list] as the primary left it. *)
Lemma exclusivity_set_conflict (p : string) (sites : list string) (site_list : gset string) :
  p ∉ site_list → sites ≠ [] →
  list_to_set sites ∩ update_primary site_list p ≠ ∅ →
  Behaviour.yields
    (exclusivity_set py_repr iter_set (p, mkFpsSet None p (Some sites) None) site_list)
    (update_primary site_list p)
    [msg_associated_registered py_repr iter_set
       (list_to_set sites ∩ update_primary site_list p)].
Proof.
  intros Hp Hsites Hoverlap. unfold exclusivity_set.
  cbn [associated_sites service_sites ccTLDs items_of default].
  rewrite bool_decide_eq_false_2 by done.
  apply (yields_bind _ _ (update_primary site_list p) _ [] [_]); [apply yields_ret|].
  assert (truthy (Some sites) = true) as -> by (by destruct sites).
  rewrite bool_decide_eq_true_2 by done.
  apply (yields_bind _ _ (update_primary site_list p) _ [_] []); [done|].
  apply (yields_bind _ _ (update_primary site_list p) _ [] []); apply yields_ret.
Qed.

End ExclusivityConflict.

(** X7.  A role in which one domain is already registered registers none of
    its domains: when a second set lists [x], claimed by the first, together
    with a new domain [y], it gets the finding for [x], and a third set that
    lists [y] passes without a finding. *)
Theorem conflicting_role_registers_nothing (py_repr : string → string)
    (iter_set : gset string → list string) (pa pb pc x y : string) (errs : list string) :
  NoDup [pa; pb; pc; x; y] →
  Forall (λ domain, String.length domain ≠ 1) [pa; pb; pc; x; y] →
  check_exclusivity py_repr iter_set
    [(pa, mkFpsSet None pa (Some [x]) None);
     (pb, mkFpsSet None pb (Some [x; y]) None);
     (pc, mkFpsSet None pc (Some [y]) None)] errs =
    (Ok tt, errs ++ [msg_associated_registered py_repr iter_set {[x]}]).
Proof.
  intros Hnodup Hlen.
  apply NoDup_cons in Hnodup as [Hpa Hnodup]. apply NoDup_cons in Hnodup as [Hpb Hnodup].
  apply NoDup_cons in Hnodup as [Hpc Hnodup]. apply NoDup_cons in Hnodup as [Hx _].
  rewrite !Forall_cons in Hlen. destruct Hlen as (Lpa & Lpb & Lpc & Lx & Ly & _).
  rewrite !not_elem_of_cons in Hpa, Hpb, Hpc, Hx.
  set (s1 := update_primary ∅ pa ∪ list_to_set [x] : gset string).
  assert (Hs1 : ∀ domain, domain ∈ s1 → String.length domain = 1 ∨ domain = x).
  { intros domain [[Hin|Hin]%update_primary_adds_characters|Hin]%elem_of_union;
      [set_solver|by left|set_solver]. }
  assert (Hrun1 : Behaviour.yields
    (exclusivity_set py_repr iter_set (pa, mkFpsSet None pa (Some [x]) None) ∅) s1 []).
  { unfold exclusivity_set. cbn [associated_sites service_sites ccTLDs items_of default truthy].
    rewrite bool_decide_eq_false_2 by apply not_elem_of_empty.
    apply (yields_bind _ _ (update_primary ∅ pa) _ [] []); [apply yields_ret|].
    apply (yields_bind _ _ s1 _ [] []).
    - apply (role_clean py_repr iter_set (msg_associated_registered py_repr iter_set) [x]).
      intros domain ->%list_elem_of_singleton [Hin|Hin]%update_primary_adds_characters;
        [set_solver|done].
    - apply (yields_bind _ _ s1 _ [] []); apply yields_ret. }
  assert (Hs2 : ∀ domain, domain ∈ update_primary s1 pb → String.length domain = 1 ∨ domain = x).
  { intros domain [Hin|Hin]%update_primary_adds_characters; [by apply Hs1|by left]. }
  assert (Hoverlap : list_to_set [x; y] ∩ update_primary s1 pb = ({[x]} : gset string)).
  { apply set_eq. intros domain. rewrite elem_of_intersection, elem_of_singleton.
    split.
    - intros [Hdomain [Hone| ->]%Hs2]; [|done]. set_solver.
    - intros ->. split; [set_solver|]. unfold update_primary, s1. set_solver. }
  assert (Hrun2 : Behaviour.yields
    (exclusivity_set py_repr iter_set (pb, mkFpsSet None pb (Some [x; y]) None) s1)
    (update_primary s1 pb) [msg_associated_registered py_repr iter_set {[x]}]).
  { rewrite <-Hoverlap. apply exclusivity_set_conflict; [|done|].
    - intros [Hin| ->]%Hs1; [done|]. set_solver.
    - rewrite Hoverlap. set_solver. }
  destruct (exclusivity_set_clean py_repr iter_set
              (pc, mkFpsSet None pc (Some [y]) None) (update_primary s1 pb))
    as (s3 & Hrun3 & _).
  { unfold Behaviour.claimed_domains, Behaviour.list_role_domains. cbn.
    apply NoDup_cons. split; [|apply NoDup_singleton]. set_solver. }
  { unfold Behaviour.claimed_domains, Behaviour.list_role_domains. cbn.
    intros domain [->|[->|[]%elem_of_nil]%elem_of_cons]%elem_of_cons; (split; [|done]).
    - intros [Hin| ->]%Hs2; [done|]. set_solver.
    - intros [Hin| ->]%Hs2; [done|]. set_solver. }
  unfold check_exclusivity. cbn [for_fold].
  assert (Hrun : Behaviour.yields
    (exclusivity_set py_repr iter_set (pa, mkFpsSet None pa (Some [x]) None) ∅ ≫= λ s,
     exclusivity_set py_repr iter_set (pb, mkFpsSet None pb (Some [x; y]) None) s ≫= λ s,
     exclusivity_set py_repr iter_set (pc, mkFpsSet None pc (Some [y]) None) s ≫= mret)
    s3 ([] ++ [msg_associated_registered py_repr iter_set {[x]}] ++ [] ++ [])).
  { apply (yields_bind _ _ s1); [done|]. apply (yields_bind _ _ (update_primary s1 pb)); [done|].
    apply (yields_bind _ _ s3); [done|]. apply yields_ret. }
  by rewrite (bind_ok _ _ _ _ _ (Hrun errs)).
Qed.

Lemma conflicting_role_registers_nothing_witness :
  check_exclusivity id elements
    [("https://a.example", mkFpsSet None "https://a.example" (Some ["https://x.example"]) None);
     ("https://b.example",
      mkFpsSet None "https://b.example" (Some ["https://x.example"; "https://y.example"]) None);
     ("https://c.example", mkFpsSet None "https://c.example" (Some ["https://y.example"]) None)]
    [] = (Ok tt, [msg_associated_registered id elements {["https://x.example"]}]).
Proof.
  apply (conflicting_role_registers_nothing id elements "https://a.example"
           "https://b.example" "https://c.example" "https://x.example" "https://y.example" []).
  - apply (bool_decide_unpack _). vm_compute. exact I.
  - apply (bool_decide_unpack _). vm_compute. exact I.
Defined.

(** ** Further behaviour: find_invalid_eTLD_Plus1 *)

Section PublicSuffixFindings.

Variable get_public_suffix : string → option string.



End PublicSuffixFindings.


(** ** Further behaviour: the policy checkers of the service sites *)

(** X9.  [find_robots_txt] never raises and appends, service site by service
    site, at most one finding: nothing when [/robots.txt] is answered with
    another status than 200 (the root page is then not looked at); after a 200,
    a finding unless the root page carries the header [X-Robots-Tag] with
    exactly the value [noindex]; and for a failed request the unexpected-error
    finding, unless the failure has an expected signature. *)
Theorem robots_findings_per_service_site (requests_get : string → result response)
    (check_sets : dict FpsSet) (errs : list string) :
  find_robots_txt requests_get check_sets errs =
    (Ok tt, errs ++ (Behaviour.service_sites_of check_sets ≫=
                       Behaviour.robots_finding requests_get)) ∧
  ∀ service_site, length (Behaviour.robots_finding requests_get service_site) ≤ 1.
Proof.
  split.
  - revert errs. apply service_loop. apply emits_robots_site.
  - intros service_site. unfold Behaviour.robots_finding, Behaviour.failure_finding.
    repeat case_match; cbn; lia.
Qed.

(** X10.  [find_ads_txt] never raises and appends, service site by service
    site: the advertising finding when [/ads.txt] is answered with status 200,
    nothing for any other answer, and for a failed request the unexpected-error
    finding, unless the failure has an expected signature. *)
Theorem ads_findings_per_service_site (requests_get : string → result response)
    (check_sets : dict FpsSet) (errs : list string) :
  find_ads_txt requests_get check_sets errs =
    (Ok tt, errs ++ (Behaviour.service_sites_of check_sets ≫=
                       Behaviour.ads_finding requests_get)).
Proof. revert errs. apply service_loop. apply emits_ads_site. Qed.

(** X11.  [check_for_service_redirect] never raises and appends, service site
    by service site: the endpoint finding exactly when the root page is
    answered with a status outside 400..599 and the final URL is the site
    itself, with or without a trailing slash; and for a failed request the
    unexpected-error finding, unless the failure has an expected signature. *)
Theorem redirect_findings_per_service_site (requests_get : string → result response)
    (check_sets : dict FpsSet) (errs : list string) :
  check_for_service_redirect requests_get check_sets errs =
    (Ok tt, errs ++ (Behaviour.service_sites_of check_sets ≫=
                       Behaviour.redirect_finding requests_get)).
Proof. revert errs. apply service_loop. apply emits_redirect_site. Qed.
(** ** Further behaviour: the documents of the member sites *)

Section MemberDocuments.

Variable open_and_load_json : string → result well_known.

Lemma emits_check_site (primary site : string) :
  emits (check_site open_and_load_json primary site)
        (Behaviour.site_finding open_and_load_json primary site).
Proof.
  intros errs. unfold check_site, Behaviour.site_finding, try_except, lift, mbind, check_bind.
  destruct (open_and_load_json (well_known_url site)) as [json_schema|inst]; [|done].
  destruct (wk_primary json_schema) as [listed|]; [|done].
  unfold when. repeat case_bool_decide; try done; by rewrite ?app_nil_r.
Qed.

Lemma emits_check_list_sites (primary : string) (site_list : list string) :
  emits (check_list_sites open_and_load_json primary site_list)
        (site_list ≫= Behaviour.site_finding open_and_load_json primary).
Proof. apply emits_for_each. intros site _. apply emits_check_site. Qed.

(** The loop over the alias keys, from the siblings gathered so far. *)
Lemma ccTLD_documents_run (primary : string) (aliases : dict (list string))
    (ccTLD_sites : list string) (errs : list string) :
  for_fold aliases (check_ccTLD_documents open_and_load_json primary) ccTLD_sites errs =
    (Ok (ccTLD_sites ++ (aliases ≫= snd)),
     errs ++ (seq 1 (length aliases) ≫= λ i,
                (ccTLD_sites ++ Behaviour.siblings_up_to aliases i) ≫=
                  Behaviour.site_finding open_and_load_json primary)).
Proof.
  revert ccTLD_sites errs.
  induction aliases as [|[aliased_site alias_sites] aliases IH]; intros ccTLD_sites errs.
  { cbn. by rewrite !app_nil_r. }
  cbn [for_fold length seq].
  assert (Hbody : check_ccTLD_documents open_and_load_json primary
                    (aliased_site, alias_sites) ccTLD_sites errs =
                  (Ok (ccTLD_sites ++ alias_sites),
                   errs ++ ((ccTLD_sites ++ alias_sites) ≫=
                              Behaviour.site_finding open_and_load_json primary))).
  { unfold check_ccTLD_documents.
    by rewrite (bind_ok _ _ _ _ _ (emits_check_list_sites primary _ errs)). }
  rewrite (bind_ok _ _ _ _ _ Hbody), IH. rewrite !bind_cons. cbn [snd].
  rewrite <-!app_assoc. do 3 f_equal.
  - unfold Behaviour.siblings_up_to. cbn. by rewrite app_nil_r.
  - rewrite <-(fmap_S_seq 1), list_bind_fmap_comp. apply list_bind_ext; [|done].
    intros i. cbn. unfold Behaviour.siblings_up_to. cbn. by rewrite <-app_assoc.
Qed.

Lemma emits_check_member_documents (primary : string) (fps : FpsSet) :
  emits (check_member_documents open_and_load_json primary fps)
    ((items_of (associated_sites fps) ≫= Behaviour.site_finding open_and_load_json primary) ++
     (items_of (service_sites fps) ≫= Behaviour.site_finding open_and_load_json primary) ++
     (seq 1 (length (items_of (ccTLDs fps))) ≫= λ i,
        Behaviour.siblings_up_to (items_of (ccTLDs fps)) i ≫=
          Behaviour.site_finding open_and_load_json primary)).
Proof.
  unfold check_member_documents.
  apply emits_bind; [|apply emits_bind].
  - eapply emits_eq; [apply emits_when, emits_check_list_sites|].
    by destruct (associated_sites fps) as [[|]|].
  - eapply emits_eq; [apply emits_when, emits_check_list_sites|].
    by destruct (service_sites fps) as [[|]|].
  - eapply emits_eq; [apply emits_when|].
    + intros errs. unfold mbind, check_bind. rewrite ccTLD_documents_run. done.
    + by destruct (ccTLDs fps) as [[|]|].
Qed.

End MemberDocuments.

(** X12.  [check_list_sites] never raises and appends, site by site, at most
    one finding; a site gets none exactly when its well-known document can be
    fetched and names the given primary as its primary.  A document that
    cannot be fetched, one without the key [primary] and one that names
    another primary each give their own finding. *)
Theorem site_documents_findings (open_and_load_json : string → result well_known)
    (primary : string) (site_list : list string) (errs : list string) :
  check_list_sites open_and_load_json primary site_list errs =
    (Ok tt, errs ++ (site_list ≫= Behaviour.site_finding open_and_load_json primary)) ∧
  (∀ site, length (Behaviour.site_finding open_and_load_json primary site) ≤ 1) ∧
  (∀ site, Behaviour.site_finding open_and_load_json primary site = [] ↔
     ∃ json_schema, open_and_load_json (well_known_url site) = Ok json_schema ∧
                    wk_primary json_schema = Some primary).
Proof.
  split_and!.
  - apply emits_check_list_sites.
  - intros site. unfold Behaviour.site_finding. repeat case_match; cbn; lia.
  - intros site. unfold Behaviour.site_finding.
    destruct (open_and_load_json (well_known_url site)) as [json_schema|inst].
    + destruct (wk_primary json_schema) as [listed|] eqn:Hprimary.
      * case_bool_decide as Hlisted.
        -- split; [|done]. intros _. exists json_schema. by subst.
        -- split; [done|]. intros (json_schema' & [= <-] & Hsame). congruence.
      * split; [done|]. intros (json_schema' & [= <-] & Hsame). congruence.
    + split; [done|]. by intros (json_schema & [=] & _).
Qed.

(** X13.  After the document of the primary, [find_invalid_well_known] checks
    the documents of the associated sites, then of the service sites, then of
    the siblings of the alias keys; it never raises there.  The call for the
    siblings sits inside the loop over the alias keys, on the list gathered so
    far: at the [i]-th key the siblings of the first [i] keys are all fetched
    and reported again, so a sibling under the first of [n] keys whose document
    is wrong gives [n] findings. *)
Theorem sibling_documents_are_rechecked (open_and_load_json : string → result well_known)
    (primary : string) (fps : FpsSet) (errs : list string) :
  check_member_documents open_and_load_json primary fps errs =
    (Ok tt,
     errs ++
     (items_of (associated_sites fps) ≫= Behaviour.site_finding open_and_load_json primary) ++
     (items_of (service_sites fps) ≫= Behaviour.site_finding open_and_load_json primary) ++
     (seq 1 (length (items_of (ccTLDs fps))) ≫= λ i,
        Behaviour.siblings_up_to (items_of (ccTLDs fps)) i ≫=
          Behaviour.site_finding open_and_load_json primary)) ∧
  (∀ i, Behaviour.siblings_up_to (items_of (ccTLDs fps)) (S i) =
          Behaviour.siblings_up_to (items_of (ccTLDs fps)) i ++
          default [] (snd <$> items_of (ccTLDs fps) !! i)).
Proof.
  split; [apply emits_check_member_documents|].
  intros i. unfold Behaviour.siblings_up_to.
  destruct (items_of (ccTLDs fps) !! i) as [[aliased_site alias_sites]|] eqn:Hi.
  - rewrite (take_S_r _ _ _ Hi), bind_app. cbn. by rewrite app_nil_r.
  - apply lookup_ge_None in Hi. rewrite !take_ge by lia. cbn. by rewrite app_nil_r.
Qed.
(** ** Further behaviour: the document of the primary *)

Lemma sym_diff_empty (a b : gset string) : sym_diff a b = ∅ ↔ a = b.
Proof.
  unfold sym_diff. split.
  - intros Hdiff. apply set_eq. intros x.
    destruct (decide (x ∈ a)), (decide (x ∈ b)); set_solver.
  - intros ->. set_solver.
Qed.

Lemma same_sites_sets (fetched submitted : list string) :
  Behaviour.same_sites fetched submitted ↔
  (list_to_set fetched : gset string) = list_to_set submitted.
Proof.
  unfold Behaviour.same_sites. rewrite set_eq.
  by setoid_rewrite elem_of_list_to_set.
Qed.

Lemma sym_diff_same_sites (fetched submitted : list string) :
  sym_diff (list_to_set fetched) (list_to_set submitted) = ∅ ↔
  Behaviour.same_sites fetched submitted.
Proof. by rewrite sym_diff_empty, same_sites_sets. Qed.

Section Outcome.

Context {A : Type}.

(** A loop is clean -- it returns and appends nothing -- exactly when each
    round is. *)
Lemma outcome_for_each (P : A → Prop) (xs : list A) (body : A → check unit) :
  (∀ x, x ∈ xs → ∃ r out, Behaviour.outcome (body x) r out ∧
                           ((r = Ok tt ∧ out = []) ↔ P x)) →
  ∃ r out, Behaviour.outcome (for_each xs body) r out ∧
           ((r = Ok tt ∧ out = []) ↔ ∀ x, x ∈ xs → P x).
Proof.
  induction xs as [|x xs IH]; intros Hbody.
  { exists (Ok tt), []. split; [intros errs; cbn; by rewrite app_nil_r|].
    split; [|done]. intros _ x Hx. by apply elem_of_nil in Hx. }
  destruct (Hbody x) as (r & out & Hrun & Hclean); [by left|].
  destruct IH as (r' & out' & Hrun' & Hclean').
  { intros y Hy. apply Hbody. by right. }
  destruct r as [[]|e].
  - exists r', (out ++ out'). split.
    + intros errs. cbn [for_each]. rewrite (bind_ok _ _ _ _ _ (Hrun errs)), Hrun'.
      by rewrite app_assoc.
    + rewrite <-(Forall_forall P), Forall_cons, Forall_forall, <-Hclean, <-Hclean'.
      split.
      * intros [-> [-> ->]%app_eq_nil]. done.
      * intros [[_ ->] [-> ->]]. done.
  - exists (Raise e), out. split.
    + intros errs. cbn [for_each]. by rewrite (bind_raise _ _ _ _ _ (Hrun errs)).
    + split; [by intros [[=] _]|]. intros Hall.
      assert (HP : P x) by (apply Hall; by left). apply Hclean in HP as [[=] _].
Qed.

End Outcome.

Section PrimaryDocument.

Variable py_repr : string → string.

(** The loop over the alias keys of the fetched document: it returns the empty
    difference exactly when it starts from the empty difference and every key
    is a key of the submitted dictionary, with the same siblings. *)
Lemma alias_differences (submitted_aliases fetched_aliases : dict (list string))
    (diff : gset string) :
  ∃ r, Behaviour.outcome
         (for_fold fetched_aliases (λ '(aliased_site, fetched_sites) diff,
            match dict_get aliased_site submitted_aliases with
            | None => raise (KeyError py_repr aliased_site)
            | Some submitted_sites =>
                mret (diff ∪ sym_diff (list_to_set fetched_sites)
                                      (list_to_set submitted_sites))
            end) diff) r [] ∧
       (r = Ok ∅ ↔
        diff = ∅ ∧
        ∀ aliased_site fetched_sites, (aliased_site, fetched_sites) ∈ fetched_aliases →
          ∃ submitted_sites, dict_get aliased_site submitted_aliases = Some submitted_sites ∧
                             Behaviour.same_sites fetched_sites submitted_sites).
Proof.
  revert diff.
  induction fetched_aliases as [|[aliased_site fetched_sites] fetched_aliases IH]; intros diff.
  { exists (Ok diff). split; [intros errs; cbn; by rewrite app_nil_r|].
    split.
    - intros [= ->]. split; [done|]. intros k l Hin. by apply elem_of_nil in Hin.
    - by intros [-> _]. }
  cbn [for_fold].
  destruct (dict_get aliased_site submitted_aliases) as [submitted_sites|] eqn:Hget.
  - destruct (IH (diff ∪ sym_diff (list_to_set fetched_sites) (list_to_set submitted_sites)))
      as (r & Hrun & Hclean).
    exists r. split.
    + intros errs. unfold mbind, check_bind, mret, check_ret. apply Hrun.
    + rewrite Hclean. split.
      * intros [Hdiff Hrest].
        apply empty_union_L in Hdiff as [-> Hsame%sym_diff_same_sites].
        split; [done|]. intros k l [[= -> ->]|Hin]%elem_of_cons; [eauto|by apply Hrest].
      * intros [-> Hall]. split.
        -- apply empty_union_L. split; [done|]. apply sym_diff_same_sites.
           destruct (Hall aliased_site fetched_sites) as (l' & Hl' & Hsame); [by left|].
           by simplify_eq.
        -- intros k l Hin. apply Hall. by right.
  - exists (Raise (KeyError py_repr aliased_site)). split.
    + intros errs. unfold mbind, check_bind, raise. by rewrite app_nil_r.
    + split; [done|]. intros [_ Hall].
      destruct (Hall aliased_site fetched_sites) as (l' & Hl' & _); [by left|]. congruence.
Qed.

(** The comparison of one field is clean exactly when the field agrees. *)
Lemma compare_field_agrees (json_schema : well_known) (fps : FpsSet) (field : string) :
  ∃ r out, Behaviour.outcome (compare_field py_repr json_schema fps field) r out ∧
           ((r = Ok tt ∧ out = []) ↔ Behaviour.field_agrees json_schema fps field).
Proof.
  unfold compare_field, Behaviour.field_agrees. case_decide as Hfield.
  - destruct (wk_primary json_schema) as [listed|].
    + case_decide as Hlisted.
      * eexists (Ok tt), [_]. split; [intros errs; reflexivity|].
        split; [by intros [_ [=]]|]. congruence.
      * try apply dec_stable in Hlisted. subst listed. exists (Ok tt), [].
        split; [intros errs; cbn; by rewrite app_nil_r|]. done.
    + exists (Raise (KeyError py_repr "primary")), [].
      split; [intros errs; unfold raise; by rewrite app_nil_r|].
      split; [by intros [[=] _]|done].
  - destruct (wk_field json_schema field) as [fetched|].
    2:{ exists (Raise (KeyError py_repr field)), [].
        split; [intros errs; unfold raise; by rewrite app_nil_r|].
        split; [by intros [[=] _]|]. by intros (f & s & [=] & _). }
    destruct (relevant_fields_dict fps field) as [submitted|].
    2:{ exists (Raise TypeError_None), [].
        split; [intros errs; unfold raise; by rewrite app_nil_r|].
        split; [by intros [[=] _]|]. by intros (f & s & _ & [=] & _). }
    assert (Hplain : ∀ diff : gset string,
      ∃ r out, Behaviour.outcome
                 (when (bool_decide (diff ≠ ∅))
                    (append (msg_field_mismatch py_repr field (elements diff)))) r out ∧
               ((r = Ok tt ∧ out = []) ↔ diff = ∅)).
    { intros diff. case_bool_decide as Hdiff.
      - eexists (Ok tt), [_]. split; [intros errs; reflexivity|].
        split; [by intros [_ [=]]|done].
      - try apply dec_stable in Hdiff. subst diff. exists (Ok tt), [].
        split; [intros errs; cbn; by rewrite app_nil_r|]. done. }
    assert (Hset : ∀ fetched' submitted',
      (fetched' = fetched ∧ submitted' = submitted) →
      (Behaviour.same_members fetched submitted ↔ set_of fetched = set_of submitted) →
      ∃ r out,
        Behaviour.outcome
          (mret (sym_diff (set_of fetched) (set_of submitted)) ≫= λ diff,
             when (bool_decide (diff ≠ ∅))
               (append (msg_field_mismatch py_repr field (elements diff)))) r out ∧
        ((r = Ok tt ∧ out = []) ↔
         ∃ f s, Some fetched = Some f ∧ Some submitted = Some s ∧
                Behaviour.same_members f s)).
    { intros _ _ _ Hsame.
      destruct (Hplain (sym_diff (set_of fetched) (set_of submitted))) as (r & out & Hrun & Hclean).
      exists r, out. split; [intros errs; apply Hrun|].
      rewrite Hclean, sym_diff_empty, <-Hsame. split; [eauto|].
      by intros (f & s & [= <-] & [= <-] & H). }
    destruct fetched as [fetched|fetched], submitted as [submitted|submitted];
      try (by apply (Hset _ _ (conj eq_refl eq_refl))).
    destruct (alias_differences submitted fetched
                (sym_diff (set_of (Aliases fetched)) (set_of (Aliases submitted))))
      as (r & Hrun & Hclean).
    destruct r as [diff|e].
    + destruct (Hplain diff) as (r & out & Hrun' & Hclean').
      exists r, out. split.
      * intros errs. rewrite (bind_ok _ _ _ _ _ (Hrun errs)), app_nil_r. apply Hrun'.
      * rewrite Hclean'. split.
        -- intros ->. exists (Aliases fetched), (Aliases submitted).
           split_and!; [done|done|]. destruct Hclean as [Hclean _].
           destruct (Hclean eq_refl) as [Hkeys Hitems]. split; [|done].
           apply sym_diff_same_sites, Hkeys.
        -- intros (f & s & [= <-] & [= <-] & Hkeys & Hitems).
           assert (Ok diff = Ok (∅ : gset string)) as [= ->]; [|done].
           apply Hclean. split; [|done]. by apply sym_diff_same_sites.
    + exists (Raise e), []. split.
      * intros errs. by rewrite (bind_raise _ _ _ _ _ (Hrun errs)).
      * split; [by intros [[=] _]|].
        intros (f & s & [= <-] & [= <-] & Hkeys & Hitems).
        assert (Raise e = Ok (∅ : gset string)) as [=].
        apply Hclean. split; [|done]. by apply sym_diff_same_sites.
Qed.

End PrimaryDocument.

(** The recognised keys of a document are the recognised fields it has. *)
Lemma wk_keys_recognised (json_schema : well_known) (field : string) :
  wk_other_keys json_schema ## acceptable_fields →
  field ∈ acceptable_fields ∩ wk_keys json_schema ↔
  (field = "ccTLDs" ∧ is_Some (wk_ccTLDs json_schema)) ∨
  (field = "primary" ∧ is_Some (wk_primary json_schema)) ∨
  (field = "associatedSites" ∧ is_Some (wk_associatedSites json_schema)) ∨
  (field = "serviceSites" ∧ is_Some (wk_serviceSites json_schema)).
Proof.
  intros Hother. rewrite elem_of_intersection. split.
  - intros [Hacc Hkey]. unfold wk_keys in Hkey. rewrite !elem_of_union in Hkey.
    destruct Hkey as [[[[Hkey|Hkey]|Hkey]|Hkey]|Hkey].
    + destruct (wk_ccTLDs json_schema); [|by apply elem_of_empty in Hkey].
      apply elem_of_singleton in Hkey. left. split; [done|by eexists].
    + destruct (wk_primary json_schema); [|by apply elem_of_empty in Hkey].
      apply elem_of_singleton in Hkey. right; left. split; [done|by eexists].
    + destruct (wk_associatedSites json_schema); [|by apply elem_of_empty in Hkey].
      apply elem_of_singleton in Hkey. right; right; left. split; [done|by eexists].
    + destruct (wk_serviceSites json_schema); [|by apply elem_of_empty in Hkey].
      apply elem_of_singleton in Hkey. right; right; right. split; [done|by eexists].
    + exfalso. by apply (Hother field).
  - unfold acceptable_fields, wk_keys.
    rewrite elem_of_list_to_set, !elem_of_cons, !elem_of_union.
    intros [ [-> [? ->]] | [ [-> [? ->]] | [ [-> [? ->]] | [-> [? ->]] ] ] ];
      rewrite elem_of_singleton; tauto.
Qed.

(** The recognised fields of the document agree one by one exactly when the
    document agrees with the set. *)
Lemma fields_agree (json_schema : well_known) (fps : FpsSet) :
  wk_other_keys json_schema ## acceptable_fields →
  (∀ field, field ∈ acceptable_fields ∩ wk_keys json_schema →
            Behaviour.field_agrees json_schema fps field) ↔
  Behaviour.agrees json_schema fps.
Proof.
  intros Hother. split.
  - intros Hfields. unfold Behaviour.agrees. split_and!.
    + intros listed Hlisted.
      assert (Hfield : Behaviour.field_agrees json_schema fps "primary").
      { apply Hfields, wk_keys_recognised; [done|]. right; left. by rewrite Hlisted. }
      unfold Behaviour.field_agrees in Hfield. case_decide; [congruence|done].
    + intros fetched Hfetched.
      destruct (Hfields "ccTLDs") as (f & s & Hf & Hs & Hsame).
      { apply wk_keys_recognised; [done|]. left. by rewrite Hfetched. }
      unfold wk_field in Hf. unfold relevant_fields_dict in Hs. cbn in Hf, Hs.
      rewrite Hfetched in Hf. destruct (ccTLDs fps) as [submitted|];
        repeat case_decide; simplify_eq/=. by exists submitted.
    + intros fetched Hfetched.
      destruct (Hfields "associatedSites") as (f & s & Hf & Hs & Hsame).
      { apply wk_keys_recognised; [done|]. right; right; left. by rewrite Hfetched. }
      unfold wk_field in Hf. unfold relevant_fields_dict in Hs. cbn in Hf, Hs.
      rewrite Hfetched in Hf. destruct (associated_sites fps) as [submitted|];
        repeat case_decide; simplify_eq/=. exists submitted. split; [done|].
      by apply same_sites_sets.
    + intros fetched Hfetched.
      destruct (Hfields "serviceSites") as (f & s & Hf & Hs & Hsame).
      { apply wk_keys_recognised; [done|]. right; right; right. by rewrite Hfetched. }
      unfold wk_field in Hf. unfold relevant_fields_dict in Hs. cbn in Hf, Hs.
      rewrite Hfetched in Hf. destruct (service_sites fps) as [submitted|];
        repeat case_decide; simplify_eq/=. exists submitted. split; [done|].
      by apply same_sites_sets.
  - intros (Hprimary & HccTLDs & Hassociated & Hservice) field Hfield.
    apply wk_keys_recognised in Hfield; [|done].
    unfold Behaviour.field_agrees, wk_field, relevant_fields_dict.
    destruct Hfield as [ [-> [f Hf]] | [ [-> [f Hf]] | [ [-> [f Hf]] | [-> [f Hf]] ] ] ];
      repeat case_decide; try done.
    + destruct (HccTLDs f Hf) as (s & Hs & Hsame). rewrite Hf, Hs.
      by exists (Aliases f), (Aliases s).
    + by rewrite Hf, (Hprimary f Hf).
    + destruct (Hassociated f Hf) as (s & Hs & Hsame). rewrite Hf, Hs.
      exists (Sites f), (Sites s). split_and!; [done|done|]. by apply same_sites_sets.
    + destruct (Hservice f Hf) as (s & Hs & Hsame). rewrite Hf, Hs.
      exists (Sites f), (Sites s). split_and!; [done|done|]. by apply same_sites_sets.
Qed.

Section CleanDocument.

Variable py_repr : string → string.
Variable iter_set : gset string → list string.
Variable open_and_load_json : string → result well_known.
Hypothesis iter_set_elements : ∀ fields, iter_set fields ≡ₚ elements fields.

(** Every round of a loop has its outcome; when the loop returns, its findings
    are those of the rounds, in order. *)
Lemma for_each_outputs {A} (xs : list A) (body : A → check unit) :
  (∀ x, x ∈ xs → ∃ r out, Behaviour.outcome (body x) r out) →
  ∃ r out, Behaviour.outcome (for_each xs body) r out ∧
    (r = Ok tt →
     ∃ outs, Forall2 (λ x o, Behaviour.outcome (body x) (Ok tt) o) xs outs ∧
             out = mjoin outs).
Proof.
  induction xs as [|x xs IH]; intros Hbody.
  { exists (Ok tt), []. split; [intros errs; cbn; by rewrite app_nil_r|].
    intros _. exists []. by split; [constructor|]. }
  destruct (Hbody x) as (r & out & Hrun); [by left|].
  destruct IH as (r' & out' & Hrun' & Houts).
  { intros y Hy. apply Hbody. by right. }
  destruct r as [[]|e].
  - exists r', (out ++ out'). split.
    + intros errs. cbn [for_each]. rewrite (bind_ok _ _ _ _ _ (Hrun errs)), Hrun'.
      by rewrite app_assoc.
    + intros Hr'. destruct (Houts Hr') as (outs & Hall & ->).
      exists (out :: outs). split; [by constructor|done].
  - exists (Raise e), out. split; [|done].
    intros errs. cbn [for_each]. by rewrite (bind_raise _ _ _ _ _ (Hrun errs)).
Qed.

Lemma outcome_unique {A} (m : check A) (r r' : result A) (out out' : list string) :
  Behaviour.outcome m r out → Behaviour.outcome m r' out' → r = r' ∧ out = out'.
Proof. intros H H'. specialize (H []). rewrite H' in H. by injection H as -> ->. Qed.

(** The comparison with a fetched document appends nothing exactly when every
    field that is recognised and present in the document agrees. *)
Lemma primary_document_clean (p : string) (fps : FpsSet) (json_schema : well_known)
    (errs : list string) :
  open_and_load_json (well_known_url p) = Ok json_schema →
  check_primary_document py_repr iter_set open_and_load_json p fps errs = (Ok tt, errs) ↔
  ∀ field, field ∈ acceptable_fields ∩ wk_keys json_schema →
           Behaviour.field_agrees json_schema fps field.
Proof.
  intros Hget.
  unfold check_primary_document, try_except, lift.
  unfold mbind at 1. unfold check_bind at 1. rewrite Hget.
  destruct (outcome_for_each (Behaviour.field_agrees json_schema fps)
              (iter_set (acceptable_fields ∩ wk_keys json_schema))
              (compare_field py_repr json_schema fps)) as (r & out & Hrun & Hclean).
  { intros field _. apply compare_field_agrees. }
  rewrite Hrun.
  assert (Hfields : (∀ field, field ∈ iter_set (acceptable_fields ∩ wk_keys json_schema) →
                              Behaviour.field_agrees json_schema fps field) ↔
                    (∀ field, field ∈ acceptable_fields ∩ wk_keys json_schema →
                              Behaviour.field_agrees json_schema fps field)).
  { split; intros Hall field Hfield; apply Hall; revert Hfield;
      by rewrite iter_set_elements, elem_of_elements. }
  rewrite <-Hfields, <-Hclean. destruct r as [[]|e].
  - split.
    + intros [= Hout]. split; [done|].
      apply (app_inv_head errs). by rewrite app_nil_r.
    + intros [_ ->]. by rewrite app_nil_r.
  - unfold append. split.
    + intros [= Hout]. apply (f_equal length) in Hout.
      rewrite !length_app in Hout. cbn in Hout. lia.
    + by intros [[=] _].
Qed.

(** When the comparison meets no exception, the fields with a mismatch finding
    are the shared fields that do not agree. *)
Lemma primary_document_mismatches (p : string) (fps : FpsSet) (json_schema : well_known)
    (errs out : list string) :
  open_and_load_json (well_known_url p) = Ok json_schema →
  check_primary_document py_repr iter_set open_and_load_json p fps errs =
    (Ok tt, errs ++ out) →
  (∀ inst, msg_access_error (well_known_url p) inst ∉ out) →
  ∀ field, field ∈ acceptable_fields → field ∈ wk_keys json_schema →
    (∃ members, msg_field_mismatch py_repr field members ∈ out) ↔
    ¬ Behaviour.field_agrees json_schema fps field.
Proof.
  intros Hget Hrun Hclean field Hacc Hkey.
  unfold check_primary_document, try_except, lift in Hrun.
  unfold mbind at 1 in Hrun. unfold check_bind at 1 in Hrun. rewrite Hget in Hrun.
  destruct (for_each_outputs (iter_set (acceptable_fields ∩ wk_keys json_schema))
              (compare_field py_repr json_schema fps)) as (r & out0 & Hloop & Houts).
  { intros x _. destruct (compare_field_agrees py_repr json_schema fps x)
      as (r & o & Ho & _). by exists r, o. }
  rewrite Hloop in Hrun. destruct r as [[]|e].
  2:{ unfold append in Hrun. injection Hrun as Hout. rewrite <-app_assoc in Hout.
      apply app_inv_head in Hout. exfalso. apply (Hclean e). rewrite <-Hout.
      apply elem_of_app. right. by left. }
  injection Hrun as Hout. apply app_inv_head in Hout. subst out0.
  destruct (Houts eq_refl) as (outs & Hall & ->). clear Houts.
  assert (Hround : ∀ x o, Behaviour.outcome (compare_field py_repr json_schema fps x) (Ok tt) o →
            (o = [] ↔ Behaviour.field_agrees json_schema fps x) ∧
            Forall (λ msg, ∃ members, msg = msg_field_mismatch py_repr x members) o).
  { intros x o Ho. split.
    - destruct (compare_field_agrees py_repr json_schema fps x) as (r & o' & Ho' & Hiff).
      destruct (outcome_unique _ _ _ _ _ Ho Ho') as [<- <-]. rewrite <-Hiff. naive_solver.
    - destruct (appends_compare_field py_repr json_schema fps x []) as (r & o' & Hrun & Ho').
      rewrite (Ho []) in Hrun. by injection Hrun as _ ->. }
  split.
  - intros (members & Hin) Hagrees.
    apply list_elem_of_join in Hin as (o & Hmsg & Ho).
    apply list_elem_of_lookup in Ho as (i & Hi).
    destruct (Forall2_lookup_r _ _ _ _ _ Hall Hi) as (x & Hx & Hox).
    destruct (Hround x o Hox) as [Hempty Hnames].
    rewrite Forall_forall in Hnames. destruct (Hnames _ Hmsg) as (members' & Heq).
    assert (Hshared : x ∈ acceptable_fields ∩ wk_keys json_schema).
    { apply elem_of_elements. rewrite <-iter_set_elements. by eapply list_elem_of_lookup_2. }
    apply elem_of_intersection in Hshared as [Hacc' _].
    apply msg_field_mismatch_field in Heq; [|done|done]. subst x.
    apply Hempty in Hagrees. subst o. by apply elem_of_nil in Hmsg.
  - intros Hdiffers.
    assert (Hin : field ∈ iter_set (acceptable_fields ∩ wk_keys json_schema)).
    { rewrite iter_set_elements, elem_of_elements. by apply elem_of_intersection. }
    apply list_elem_of_lookup in Hin as (i & Hi).
    destruct (Forall2_lookup_l _ _ _ _ _ Hall Hi) as (o & Ho & Hfo).
    destruct (Hround field o Hfo) as [Hempty Hnames].
    destruct o as [|msg o]; [by destruct Hdiffers; apply Hempty|].
    apply Forall_cons in Hnames as [(members & ->) _].
    exists members. apply list_elem_of_join. exists (msg_field_mismatch py_repr field members :: o).
    split; [by left|]. by eapply list_elem_of_lookup_2.
Qed.

End CleanDocument.

(** X14.  The well-known document of a primary is accepted -- the comparison
    appends nothing -- exactly when it agrees with the submitted set: the
    primary it names is the primary of the set, and each list-like field it
    has is a field of the set with the same members (for the alias dictionary:
    the same keys, and the same siblings under each key of the document).  In
    every other case a finding is appended: a mismatch, or the access error of
    an exception met during the comparison.  The document model keeps its
    unrecognised keys apart from the recognised ones. *)
Theorem primary_document_accepted_iff (py_repr : string → string)
    (iter_set : gset string → list string)
    (open_and_load_json : string → result well_known)
    (p : string) (fps : FpsSet) (json_schema : well_known) (errs : list string) :
  (∀ fields, iter_set fields ≡ₚ elements fields) →
  open_and_load_json (well_known_url p) = Ok json_schema →
  wk_other_keys json_schema ## acceptable_fields →
  check_primary_document py_repr iter_set open_and_load_json p fps errs = (Ok tt, errs) ↔
  Behaviour.agrees json_schema fps.
Proof.
  intros Hiter Hget Hother. rewrite <-(fields_agree _ _ Hother).
  by apply primary_document_clean.
Qed.

(** The theorem on the document of ["https://a.example"], which only names its
    primary, and the set of that primary: the document is accepted. *)
Lemma primary_document_accepted_iff_witness :
  check_primary_document id elements Examples.only_document_a
    "https://a.example" Examples.set_a [] = (Ok tt, []).
Proof.
  apply (primary_document_accepted_iff id elements Examples.only_document_a
           "https://a.example" Examples.set_a Examples.document_a []).
  - intros fields. reflexivity.
  - reflexivity.
  - apply disjoint_empty_l.
  - unfold Behaviour.agrees. cbn. split_and!; [by intros listed [= <-]|done|done|done].
Defined.
(** ** The fields that are compared with the document of the primary *)

(** C6.  When the document of the primary is fetched, the fields it is compared
    on are those that are both recognised and present in the document.  The
    comparison appends nothing exactly when each of these fields agrees with
    the submitted set, whatever the set holds for the fields that the document
    omits; when it meets no exception, the fields that get a mismatch finding
    are exactly the shared fields that do not agree.  Every finding is about a
    shared field or reports an exception met while comparing one; a recognised
    field that the document omits gets no finding, and what the submitted set
    holds for it has no influence on the outcome. *)
Theorem only_shared_fields_are_compared (py_repr : string → string)
    (iter_set : gset string → list string)
    (open_and_load_json : string → result well_known)
    (p : string) (fps : FpsSet) (json_schema : well_known) (errs : list string) :
  (∀ fields, iter_set fields ≡ₚ elements fields) →
  open_and_load_json (well_known_url p) = Ok json_schema →
  ∃ out,
    check_primary_document py_repr iter_set open_and_load_json p fps errs =
      (Ok tt, errs ++ out) ∧
    (out = [] ↔
     ∀ field, field ∈ acceptable_fields → field ∈ wk_keys json_schema →
              Behaviour.field_agrees json_schema fps field) ∧
    ((∀ inst, msg_access_error (well_known_url p) inst ∉ out) →
     ∀ field, field ∈ acceptable_fields → field ∈ wk_keys json_schema →
       (∃ members, msg_field_mismatch py_repr field members ∈ out) ↔
       ¬ Behaviour.field_agrees json_schema fps field) ∧
    (∀ msg, msg ∈ out →
       (∃ inst, msg = msg_access_error (well_known_url p) inst) ∨
       (∃ field members, field ∈ acceptable_fields ∧ field ∈ wk_keys json_schema ∧
                         msg = msg_field_mismatch py_repr field members)) ∧
    (∀ field members, field ∈ acceptable_fields → field ∉ wk_keys json_schema →
       msg_field_mismatch py_repr field members ∉ out) ∧
    (∀ fps', primary fps' = primary fps →
       (∀ field, field ∈ wk_keys json_schema →
          relevant_fields_dict fps' field = relevant_fields_dict fps field) →
       check_primary_document py_repr iter_set open_and_load_json p fps' errs =
       check_primary_document py_repr iter_set open_and_load_json p fps errs).
Proof.
  intros Hiter Hget.
  destruct (primary_document_fetched py_repr iter_set open_and_load_json Hiter
              p fps json_schema errs Hget) as (out & Hrun & Hout).
  exists out. rewrite Forall_forall in Hout. split_and!; [done| | |done| |].
  - assert (Hclean := primary_document_clean py_repr iter_set open_and_load_json Hiter
                        p fps json_schema errs Hget).
    rewrite Hrun in Hclean. split.
    + intros -> field Hacc Hkey. apply Hclean; [by rewrite app_nil_r|].
      by apply elem_of_intersection.
    + intros Hagree.
      assert (Heq : (Ok tt, errs ++ out) = (Ok tt : result unit, errs)).
      { apply Hclean. intros field [Hacc Hkey]%elem_of_intersection. by apply Hagree. }
      injection Heq as Heq. apply (app_inv_head errs). by rewrite app_nil_r.
  - by apply (primary_document_mismatches py_repr iter_set open_and_load_json Hiter
                p fps json_schema errs out).
  - intros field members Hacc Hkey Hin.
    destruct (Hout _ Hin) as [[inst Heq]|(field' & members' & Hacc' & Hkey' & Heq)].
    + symmetry in Heq. by apply msg_access_error_not_mismatch in Heq.
    + apply msg_field_mismatch_field in Heq; [|done|done]. by subst.
  - intros fps' Hprimary Hfields.
    by apply (primary_document_ext py_repr iter_set open_and_load_json Hiter p fps fps' json_schema).
Qed.

(** The theorem on the document of ["https://a.example"], which has no
    [associatedSites], against a submitted set that lists one associated site:
    no finding at all, and the outcome is that of a set without associated
    sites. *)
Lemma only_shared_fields_are_compared_witness :
  check_primary_document id elements Examples.only_document_a
    "https://a.example" Examples.set_a_associated [] = (Ok tt, []) ∧
  check_primary_document id elements Examples.only_document_a
    "https://a.example" Examples.set_a [] =
  check_primary_document id elements Examples.only_document_a
    "https://a.example" Examples.set_a_associated [].
Proof.
  destruct (only_shared_fields_are_compared id elements Examples.only_document_a
              "https://a.example" Examples.set_a_associated Examples.document_a [])
    as (out & Hrun & Hclean & _ & _ & _ & Hext); [intros fields; reflexivity | reflexivity |].
  split.
  - rewrite Hrun. f_equal. apply Hclean. intros field _ Hkey.
    assert (field = "primary") as ->.
    { revert Hkey. clear. unfold wk_keys, Examples.document_a.
      cbn [wk_ccTLDs wk_primary wk_associatedSites wk_serviceSites wk_other_keys].
      set_solver. }
    reflexivity.
  - apply Hext; [reflexivity|].
    intros field Hfield.
    assert (field = "primary") as ->.
    { revert Hfield. clear. unfold wk_keys, Examples.document_a.
      cbn [wk_ccTLDs wk_primary wk_associatedSites wk_serviceSites wk_other_keys].
      set_solver. }
    reflexivity.
Defined.
(** ** Further behaviour: what the alias checker leaves behind *)

Section AliasMutation.

Variable icanns : gset string.






End AliasMutation.


